(** * TechBlog: the Notion block pipeline

    A shallow embedding of the block parser (api/blocks/block-parser.ts),
    the rich text renderer (api/blocks/block-renderer.tsx), the block tree
    fetcher (api/post-detail.ts) and the post metadata parser
    (api/notion-parser.ts), with the properties stated about them.

    The TypeScript code receives [any]: payloads of the Notion client, that
    is JSON data.  They are modelled as dynamically typed values, and a
    property read of [null] or [undefined] raises, as it does in
    JavaScript. *)

From Stdlib Require Import String Ascii ZArith Bool Lia DecimalString List.
Import ListNotations.
Open Scope string_scope.

(** ** Exceptions *)

Inductive error : Type :=
| TypeError
| ApiError (message : string).

Inductive result (A : Type) : Type :=
| Ok (a : A)
| Throw (e : error).

Arguments Ok {A} a.
Arguments Throw {A} e.

Definition bind {A B : Type} (r : result A) (k : A -> result B) : result B :=
  match r with
  | Ok a => k a
  | Throw e => Throw e
  end.

Notation "x <- e ;; k" := (bind e (fun x => k))
  (at level 61, e at next level, right associativity).

Definition returns {A : Type} (r : result A) : bool :=
  match r with Ok _ => true | Throw _ => false end.

(** [Array.prototype.map] with a callback that may raise: elements are
    visited from left to right and the first exception ends the loop. *)
Fixpoint mapM {A B : Type} (f : A -> result B) (l : list A) : result (list B) :=
  match l with
  | [] => Ok []
  | x :: rest =>
      y <- f x ;;
      ys <- mapM f rest ;;
      Ok (y :: ys)
  end.

(** ** JavaScript values *)

(** JSON data plus [undefined].  The program never computes with numbers,
    which are taken to be integers; an object is the list of its own
    properties, the first binding of a key being the one read. *)
#[warnings="-register-all"]
Inductive value : Type :=
| VUndefined
| VNull
| VBool (b : bool)
| VNum (n : Z)
| VStr (s : string)
| VArr (elems : list value)
| VObj (fields : list (string * value)).

Fixpoint lookup (k : string) (fields : list (string * value)) : value :=
  match fields with
  | [] => VUndefined
  | (k', v) :: rest => if String.eqb k' k then v else lookup k rest
  end.

Definition has_key (k : string) (fields : list (string * value)) : bool :=
  existsb (fun kv => String.eqb (fst kv) k) fields.

Definition nullish (v : value) : bool :=
  match v with
  | VUndefined | VNull => true
  | _ => false
  end.

(** ToBoolean. *)
Definition truthy (v : value) : bool :=
  match v with
  | VUndefined | VNull => false
  | VBool b => b
  | VNum n => negb (Z.eqb n 0)
  | VStr s => negb (String.eqb s "")
  | VArr _ | VObj _ => true
  end.

(** [v.k] on payload data: raises on [null] and [undefined]; an object
    yields its own property, [undefined] when it has none; a primitive or an
    array yields [undefined] for the names this program reads.  (Of these
    names a string inherits two, the methods [bold] and [link]; they are
    read from [annotations] and [text], which are objects in a payload.) *)
Definition get_prop (v : value) (k : string) : result value :=
  match v with
  | VUndefined | VNull => Throw TypeError
  | VObj fields => Ok (lookup k fields)
  | _ => Ok VUndefined
  end.

(** [v?.k], for the keys the program reads.  A primitive or an array has
    none of them, with one exception: a string inherits [bold] and [link]
    from its prototype.  [link] is only ever followed by [?.url], which a
    function does not have; [bold] is read off [annotations] alone, and
    what is proved of the wrappers of a run leaves out the runs whose
    [annotations] is a string. *)
Definition opt_prop (v : value) (k : string) : value :=
  match v with
  | VObj fields => lookup k fields
  | _ => VUndefined
  end.

(** [v?.[0]] *)
Definition opt_first (v : value) : value :=
  match v with
  | VArr (x :: _) => x
  | VStr (String c _) => VStr (String c "")
  | VObj fields => lookup "0" fields
  | _ => VUndefined
  end.

(** [a || b] *)
Definition or_else (a b : value) : value := if truthy a then a else b.

(** [a ?? b] *)
Definition coalesce (a b : value) : value := if nullish a then b else a.

(** [v === "s"] *)
Definition is_str (v : value) (s : string) : bool :=
  match v with
  | VStr t => String.eqb t s
  | _ => false
  end.

Notation "a ||| b" := (or_else a b) (at level 50, left associativity).

(** ToString, as [Array.prototype.join] applies it to the elements of an
    array.  An object prints as [[object Object]] unless it has an own
    [toString] property: JSON data is never callable, so the conversion to
    a primitive then falls through to [valueOf], which returns the object,
    and raises.  Integers print in decimal, as JavaScript prints them
    below 10^21; nothing proved here depends on the digits. *)
Fixpoint to_string (v : value) : result string :=
  match v with
  | VUndefined => Ok "undefined"
  | VNull => Ok "null"
  | VBool true => Ok "true"
  | VBool false => Ok "false"
  | VNum n => Ok (NilZero.string_of_int (Z.to_int n))
  | VStr s => Ok s
  | VArr elems =>
      (fix join_comma (l : list value) : result string :=
         match l with
         | [] => Ok ""
         | x :: rest =>
             s <- (if nullish x then Ok "" else to_string x) ;;
             match rest with
             | [] => Ok s
             | _ => r <- join_comma rest ;; Ok (s ++ "," ++ r)
             end
         end) elems
  | VObj fields =>
      if has_key "toString" fields
      then Throw TypeError
      else Ok "[object Object]"
  end.

(** [elems.join("")] *)
Fixpoint join_empty (elems : list value) : result string :=
  match elems with
  | [] => Ok ""
  | x :: rest =>
      s <- (if nullish x then Ok "" else to_string x) ;;
      r <- join_empty rest ;;
      Ok (s ++ r)
  end.

(** ** block-types.ts *)

Record RichTextAnnotations : Type := {
  bold : value;
  italic : value;
  strikethrough : value;
  underline : value;
  code : value;
  color : value
}.

Record ParsedRichText : Type := {
  content : value;
  link : value;
  annotations : RichTextAnnotations
}.

Inductive HeadingType : Type := heading_1 | heading_2 | heading_3.
Inductive ListItemType : Type := bulleted_list_item | numbered_list_item.

Record Icon : Type := {
  icon_type : value;
  icon_emoji : value;
  icon_url : value
}.

Inductive ParsedBlock : Type :=
| ParagraphBlock (content : list ParsedRichText) (hasChildren : value)
| HeadingBlock (type : HeadingType) (content : list ParsedRichText)
    (isToggleable : value)
| ListItemBlock (type : ListItemType) (content : list ParsedRichText)
    (hasChildren : value)
| QuoteBlock (content : list ParsedRichText)
| CodeBlock (content : string) (language : value)
    (caption : list ParsedRichText)
| CalloutBlock (content : list ParsedRichText) (icon : option Icon)
    (color : value)
| DividerBlock
| ImageBlock (url : value) (caption : list ParsedRichText)
| BookmarkBlock (url : value) (caption : list ParsedRichText)
| ToggleBlock (content : list ParsedRichText) (hasChildren : value)
| ToDoBlock (content : list ParsedRichText) (checked : value)
    (hasChildren : value).

#[warnings="-register-all"]
Inductive BlockWithMetadata : Type :=
  mkBlock {
    id : value;
    block : ParsedBlock;
    children : list BlockWithMetadata
  }.

(** ** block-parser.ts *)

(** The callback of [richTextArray.map] in [parseRichText]. *)
Definition parseRun (rt : value) : result ParsedRichText :=
  plain_text <- get_prop rt "plain_text" ;;
  text <- get_prop rt "text" ;;
  ann <- get_prop rt "annotations" ;;
  Ok {| content := plain_text ||| VStr "";
        link := opt_prop (opt_prop text "link") "url" ||| VUndefined;
        annotations :=
          {| bold := opt_prop ann "bold" ||| VBool false;
             italic := opt_prop ann "italic" ||| VBool false;
             strikethrough := opt_prop ann "strikethrough" ||| VBool false;
             underline := opt_prop ann "underline" ||| VBool false;
             code := opt_prop ann "code" ||| VBool false;
             color := opt_prop ann "color" ||| VStr "default" |} |}.

Definition parseRichText (richTextArray : value) : result (list ParsedRichText) :=
  match richTextArray with
  | VArr elems => mapM parseRun elems
  | _ => Ok []
  end.

Definition HeadingType_name (t : HeadingType) : string :=
  match t with
  | heading_1 => "heading_1"
  | heading_2 => "heading_2"
  | heading_3 => "heading_3"
  end.

Definition ListItemType_name (t : ListItemType) : string :=
  match t with
  | bulleted_list_item => "bulleted_list_item"
  | numbered_list_item => "numbered_list_item"
  end.

Definition parseParagraph (block : value) : result ParsedBlock :=
  paragraph <- get_prop block "paragraph" ;;
  content <- parseRichText (opt_prop paragraph "rich_text" ||| VArr []) ;;
  has_children <- get_prop block "has_children" ;;
  Ok (ParagraphBlock content (has_children ||| VBool false)).

(** [type] is [block.type], which [parseBlock] has just matched. *)
Definition parseHeading (type : HeadingType) (block : value) : result ParsedBlock :=
  headingData <- get_prop block (HeadingType_name type) ;;
  content <- parseRichText (opt_prop headingData "rich_text" ||| VArr []) ;;
  Ok (HeadingBlock type content
        (opt_prop headingData "is_toggleable" ||| VBool false)).

Definition parseListItem (type : ListItemType) (block : value) : result ParsedBlock :=
  listData <- get_prop block (ListItemType_name type) ;;
  content <- parseRichText (opt_prop listData "rich_text" ||| VArr []) ;;
  has_children <- get_prop block "has_children" ;;
  Ok (ListItemBlock type content (has_children ||| VBool false)).

Definition parseQuote (block : value) : result ParsedBlock :=
  quote <- get_prop block "quote" ;;
  content <- parseRichText (opt_prop quote "rich_text" ||| VArr []) ;;
  Ok (QuoteBlock content).

(** [richText.map(...)] raises when [richText] is not an array: nothing
    else in a payload has a callable [map]. *)
Definition parseCode (block : value) : result ParsedBlock :=
  codeData <- get_prop block "code" ;;
  let richText := opt_prop codeData "rich_text" ||| VArr [] in
  plain_texts <- match richText with
                 | VArr elems => mapM (fun rt => get_prop rt "plain_text") elems
                 | _ => Throw TypeError
                 end ;;
  content <- join_empty plain_texts ;;
  caption <- parseRichText (opt_prop codeData "caption" ||| VArr []) ;;
  Ok (CodeBlock content
        (opt_prop codeData "language" ||| VStr "plain text")
        caption).

Definition parseCallout (block : value) : result ParsedBlock :=
  calloutData <- get_prop block "callout" ;;
  icon <- (if truthy (opt_prop calloutData "icon") then
             iconData <- get_prop calloutData "icon" ;;
             type <- get_prop iconData "type" ;;
             emoji <- get_prop iconData "emoji" ;;
             url <- (if is_str type "external" then
                       external <- get_prop iconData "external" ;;
                       Ok (opt_prop external "url")
                     else
                       file <- get_prop iconData "file" ;;
                       Ok (opt_prop file "url")) ;;
             Ok (Some {| icon_type := type; icon_emoji := emoji; icon_url := url |})
           else Ok None) ;;
  content <- parseRichText (opt_prop calloutData "rich_text" ||| VArr []) ;;
  Ok (CalloutBlock content icon (opt_prop calloutData "color" ||| VStr "default")).

Definition parseDivider (_block : value) : result ParsedBlock :=
  Ok DividerBlock.

(** The URL [parseImage] derives from a truthy [block.image]. *)
Definition image_url (imageData : value) : result value :=
  type <- get_prop imageData "type" ;;
  if is_str type "external" then
    external <- get_prop imageData "external" ;;
    Ok (opt_prop external "url")
  else
    file <- get_prop imageData "file" ;;
    Ok (opt_prop file "url").

Definition parseImage (block : value) : result (option ParsedBlock) :=
  imageData <- get_prop block "image" ;;
  if negb (truthy imageData) then Ok None
  else
    url <- image_url imageData ;;
    if negb (truthy url) then Ok None
    else
      caption_raw <- get_prop imageData "caption" ;;
      caption <- parseRichText (caption_raw ||| VArr []) ;;
      Ok (Some (ImageBlock url caption)).

Definition parseBookmark (block : value) : result ParsedBlock :=
  bookmark <- get_prop block "bookmark" ;;
  caption <- parseRichText (opt_prop bookmark "caption" ||| VArr []) ;;
  Ok (BookmarkBlock (opt_prop bookmark "url" ||| VStr "") caption).

Definition parseToggle (block : value) : result ParsedBlock :=
  toggle <- get_prop block "toggle" ;;
  content <- parseRichText (opt_prop toggle "rich_text" ||| VArr []) ;;
  has_children <- get_prop block "has_children" ;;
  Ok (ToggleBlock content (has_children ||| VBool false)).

Definition parseToDo (block : value) : result ParsedBlock :=
  to_do <- get_prop block "to_do" ;;
  content <- parseRichText (opt_prop to_do "rich_text" ||| VArr []) ;;
  has_children <- get_prop block "has_children" ;;
  Ok (ToDoBlock content (opt_prop to_do "checked" ||| VBool false)
        (has_children ||| VBool false)).

Definition some {A : Type} (r : result A) : result (option A) :=
  a <- r ;; Ok (Some a).

Definition parseBlock (block : value) : result (option ParsedBlock) :=
  type <- get_prop block "type" ;;
  if is_str type "paragraph" then some (parseParagraph block)
  else if is_str type "heading_1" then some (parseHeading heading_1 block)
  else if is_str type "heading_2" then some (parseHeading heading_2 block)
  else if is_str type "heading_3" then some (parseHeading heading_3 block)
  else if is_str type "bulleted_list_item"
       then some (parseListItem bulleted_list_item block)
  else if is_str type "numbered_list_item"
       then some (parseListItem numbered_list_item block)
  else if is_str type "quote" then some (parseQuote block)
  else if is_str type "code" then some (parseCode block)
  else if is_str type "callout" then some (parseCallout block)
  else if is_str type "divider" then some (parseDivider block)
  else if is_str type "image" then parseImage block
  else if is_str type "bookmark" then some (parseBookmark block)
  else if is_str type "toggle" then some (parseToggle block)
  else if is_str type "to_do" then some (parseToDo block)
  else Ok None.

(** The [for] loop of [parseBlocks]; [parsedBlocks] is the array built so
    far, to which [push] appends. *)
Fixpoint parseBlocks_loop (parsedBlocks : list BlockWithMetadata)
    (blocks : list value) : result (list BlockWithMetadata) :=
  match blocks with
  | [] => Ok parsedBlocks
  | block :: rest =>
      parsedBlock <- parseBlock block ;;
      match parsedBlock with
      | Some b =>
          block_id <- get_prop block "id" ;;
          parseBlocks_loop
            (parsedBlocks ++ [{| id := block_id; block := b; children := [] |}])
            rest
      | None => parseBlocks_loop parsedBlocks rest
      end
  end.

Definition parseBlocks (blocks : list value) : result (list BlockWithMetadata) :=
  parseBlocks_loop [] blocks.

(** ** block-renderer.tsx: the rich text renderer *)

(** React elements: a tag, its props and its children; a child is an
    element or a value placed in braces. *)
#[warnings="-register-all"]
Inductive ReactNode : Type :=
| Child (v : value)
| Element (tag : string) (props : list (string * value))
    (children : list ReactNode)
| Fragment (children : list ReactNode).

(** The callback of [content.map] in [RichTextRenderer]. *)
Definition renderRun (index : nat) (text : ParsedRichText) : ReactNode :=
  let element := Child (content text) in
  let element :=
    if truthy (bold (annotations text))
    then Element "strong" [] [element] else element in
  let element :=
    if truthy (italic (annotations text))
    then Element "em" [] [element] else element in
  let element :=
    if truthy (strikethrough (annotations text))
    then Element "s" [] [element] else element in
  let element :=
    if truthy (underline (annotations text))
    then Element "u" [] [element] else element in
  let element :=
    if truthy (code (annotations text))
    then Element "code" [("className", VStr "inline-code")] [element]
    else element in
  let element :=
    if truthy (link text)
    then Element "a"
           [("href", link text); ("target", VStr "_blank");
            ("rel", VStr "noopener noreferrer")]
           [element]
    else element in
  Element "span" [("key", VNum (Z.of_nat index))] [element].

Fixpoint mapi_from {A B : Type} (f : nat -> A -> B) (i : nat) (l : list A) : list B :=
  match l with
  | [] => []
  | x :: rest => f i x :: mapi_from f (S i) rest
  end.

Definition RichTextRenderer (content : list ParsedRichText) : ReactNode :=
  Fragment (mapi_from renderRun 0 content).

(** ** post-detail.ts: the block tree fetcher *)

(** The condition under which [fetchBlocksRecursively] descends into a
    block: its type is one of the five listed and [hasChildren] is truthy. *)
Definition children_capable (b : ParsedBlock) : bool :=
  match b with
  | ParagraphBlock _ _ | ListItemBlock _ _ _ | ToggleBlock _ _
  | ToDoBlock _ _ _ => true
  | _ => false
  end.

(** [(block.block as any).hasChildren] *)
Definition hasChildren_of (b : ParsedBlock) : value :=
  match b with
  | ParagraphBlock _ h | ListItemBlock _ _ h | ToggleBlock _ h
  | ToDoBlock _ _ h => h
  | _ => VUndefined
  end.

Definition expands (b : ParsedBlock) : bool :=
  children_capable b && truthy (hasChildren_of b).

Section Fetcher.

(** The Notion client.  [World] is whatever the service's answers depend
    on; [list_children blockId] is
    [notion.blocks.children.list({ block_id, page_size: 100 })] followed by
    [.results]: the call fails or answers with an array of block records. *)
Variable World : Type.
Variable list_children : value -> World -> result (list value) * World.

(** A run of the fetcher: [None] when the recursion budget is used up. *)
Definition run (A : Type) : Type := option (result A * World).

(** The [for] loop of [fetchBlocksRecursively]: each block is updated in
    place, one after the other; [fetch] is the recursive call. *)
Fixpoint expand_children (fetch : value -> World -> run (list BlockWithMetadata))
    (blocks : list BlockWithMetadata) (w : World)
    : run (list BlockWithMetadata) :=
  match blocks with
  | [] => Some (Ok [], w)
  | b :: rest =>
      if expands (block b) then
        match fetch (id b) w with
        | None => None
        | Some (Throw e, w1) => Some (Throw e, w1)
        | Some (Ok kids, w1) =>
            match expand_children fetch rest w1 with
            | None => None
            | Some (Throw e, w2) => Some (Throw e, w2)
            | Some (Ok rest', w2) =>
                Some (Ok ({| id := id b; block := block b; children := kids |}
                          :: rest'), w2)
            end
        end
      else
        match expand_children fetch rest w with
        | None => None
        | Some (Throw e, w2) => Some (Throw e, w2)
        | Some (Ok rest', w2) => Some (Ok (b :: rest'), w2)
        end
  end.

Fixpoint fetchBlocksRecursively (fuel : nat) (blockId : value) (w : World)
    : run (list BlockWithMetadata) :=
  match fuel with
  | O => None
  | S fuel' =>
      match list_children blockId w with
      | (Throw e, w1) => Some (Throw e, w1)
      | (Ok results, w1) =>
          match parseBlocks results with
          | Throw e => Some (Throw e, w1)
          | Ok blocks =>
              expand_children (fetchBlocksRecursively fuel') blocks w1
          end
      end
  end.

(** [try { ... } catch (error) { console.error(...); return []; }] *)
Definition getPageBlocks (fuel : nat) (pageId : value) (w : World)
    : run (list BlockWithMetadata) :=
  match fetchBlocksRecursively fuel pageId w with
  | None => None
  | Some (Ok blocks, w1) => Some (Ok blocks, w1)
  | Some (Throw _, w1) => Some (Ok [], w1)
  end.

End Fetcher.

Arguments expand_children {World} fetch blocks w.
Arguments fetchBlocksRecursively {World} list_children fuel blockId w.
Arguments getPageBlocks {World} list_children fuel pageId w.

(** ** notion-parser.ts *)

Module NotionParser.

Record NotionPost : Type := {
  id : value;
  title : value;
  status : value;
  createdDate : value;
  series : value;
  categories : value;
  thumbnail : value
}.

Definition getTitle (prop : value) : value :=
  coalesce (opt_prop (opt_first (opt_prop prop "title")) "plain_text") (VStr "").

Definition getDate (prop : value) : value :=
  coalesce (opt_prop (opt_prop prop "date") "start") (VStr "").

Definition getStatus (prop : value) : value :=
  coalesce (opt_prop (opt_prop prop "status") "name") (VStr "").

Definition getSeries (prop : value) : value :=
  coalesce (opt_prop (opt_prop prop "select") "name") VNull.

Definition getCategories (prop : value) : result value :=
  let multi_select := opt_prop prop "multi_select" in
  if nullish multi_select then Ok (VArr [])
  else match multi_select with
       | VArr items =>
           names <- mapM (fun item => get_prop item "name") items ;;
           Ok (VArr names)
       | _ => Throw TypeError
       end.

Definition getCover (page : value) : result value :=
  cover <- get_prop page "cover" ;;
  if negb (truthy cover) then Ok VNull
  else
    type <- get_prop cover "type" ;;
    if is_str type "file" then
      file <- get_prop cover "file" ;;
      get_prop file "url"
    else
      external <- get_prop cover "external" ;;
      get_prop external "url".

(** [new NotionPost(page)] *)
Definition new (page : value) : result NotionPost :=
  props <- get_prop page "properties" ;;
  page_id <- get_prop page "id" ;;
  title_prop <- get_prop props "title" ;;
  status_prop <- get_prop props "status" ;;
  date_prop <- get_prop props "created_date" ;;
  series_prop <- get_prop props "series" ;;
  categories_prop <- get_prop props "categories" ;;
  categories <- getCategories categories_prop ;;
  thumbnail <- getCover page ;;
  Ok {| id := page_id;
        title := getTitle title_prop;
        status := getStatus status_prop;
        createdDate := getDate date_prop;
        series := getSeries series_prop;
        categories := categories;
        thumbnail := thumbnail |}.

End NotionParser.

(** * Vocabulary of the properties *)

Definition has_nullish_element (v : value) : bool :=
  match v with
  | VArr elems => existsb nullish elems
  | _ => false
  end.

Definition default_annotations : RichTextAnnotations :=
  {| bold := VBool false; italic := VBool false; strikethrough := VBool false;
     underline := VBool false; code := VBool false; color := VStr "default" |}.

(** The runs of a code body: the array [code.rich_text], or no run at all
    when the field is missing. *)
Definition code_body (codeData : value) : option (list value) :=
  match opt_prop codeData "rich_text" with
  | VArr elems => Some elems
  | v => if truthy v then None else Some []
  end.

(** The URL an image record yields, in the words of the specification:
    none when the [image] object is missing; otherwise the external URL when
    the type tag is ["external"] and the file URL when it is not, if there
    is one. *)
Definition usable_url (block : value) : option value :=
  let image := opt_prop block "image" in
  if truthy image then
    let url :=
      if is_str (opt_prop image "type") "external"
      then opt_prop (opt_prop image "external") "url"
      else opt_prop (opt_prop image "file") "url" in
    if truthy url then Some url else None
  else None.

(** A rich-text run record: an object with a [plain_text] string. *)
Definition is_run (rt : value) : bool :=
  match rt with
  | VObj fields =>
      match lookup "plain_text" fields with
      | VStr _ => true
      | _ => false
      end
  | _ => false
  end.

(** A rich-text field of a block record: missing, or an array of runs. *)
Definition rich_text_ok (v : value) : bool :=
  match v with
  | VUndefined | VNull => true
  | VArr elems => forallb is_run elems
  | _ => false
  end.

(** A raw block record: an object whose rich-text fields, [rich_text] and
    [caption] of the object named by its [type], are well formed. *)
Definition block_record (block : value) : bool :=
  match block with
  | VObj fields =>
      match lookup "type" fields with
      | VStr t =>
          rich_text_ok (opt_prop (lookup t fields) "rich_text") &&
          rich_text_ok (opt_prop (lookup t fields) "caption")
      | _ => true
      end
  | _ => false
  end.

(** The block types [parseBlock] dispatches on. *)
Definition recognized_types : list string :=
  ["paragraph"; "heading_1"; "heading_2"; "heading_3"; "bulleted_list_item";
   "numbered_list_item"; "quote"; "code"; "callout"; "divider"; "image";
   "bookmark"; "toggle"; "to_do"].

Definition recognized (type : value) : bool :=
  existsb (is_str type) recognized_types.

(** A record survives batch parsing when [parseBlock] yields a block. *)
Definition survives (block : value) : bool :=
  match parseBlock block with
  | Ok (Some _) => true
  | _ => false
  end.

(** A block node stub for a record: the parsed block, the record's
    identifier, no children. *)
Definition stub_of (record : value) (node : BlockWithMetadata) : Prop :=
  parseBlock record = Ok (Some (block node)) /\
  id node = opt_prop record "id" /\
  children node = [].

(** The tags of the elements wrapped around a text, outermost first. *)
Fixpoint wrapper_chain (node : ReactNode) : list string :=
  match node with
  | Element tag _ [child] => tag :: wrapper_chain child
  | Element tag _ _ => [tag]
  | _ => []
  end.

(** What the wrappers are wrapped around. *)
Fixpoint innermost (node : ReactNode) : ReactNode :=
  match node with
  | Element _ _ [child] => innermost child
  | _ => node
  end.

Definition fragment_children (node : ReactNode) : list ReactNode :=
  match node with
  | Fragment children => children
  | _ => []
  end.

(** The wrappers applied for the truthy entries of a nesting order. *)
Definition wrappers (order : list (value * string)) : list string :=
  map snd (filter (fun entry => truthy (fst entry)) order).

(** The nesting of the renderer, outermost first: hyperlink, inline code,
    underline, strikethrough, italic, bold. *)
Definition renderer_nesting (text : ParsedRichText) : list (value * string) :=
  [(link text, "a");
   (code (annotations text), "code");
   (underline (annotations text), "u");
   (strikethrough (annotations text), "s");
   (italic (annotations text), "em");
   (bold (annotations text), "strong")].

(** The nesting the specification words, outermost first: hyperlink, inline
    code, bold, italic, underline, strikethrough. *)
Definition specified_nesting (text : ParsedRichText) : list (value * string) :=
  [(link text, "a");
   (code (annotations text), "code");
   (bold (annotations text), "strong");
   (italic (annotations text), "em");
   (underline (annotations text), "u");
   (strikethrough (annotations text), "s")].

Definition link_props (href : value) : list (string * value) :=
  [("href", href); ("target", VStr "_blank");
   ("rel", VStr "noopener noreferrer")].

(** Every node of a tree, the node itself first. *)
Fixpoint nodes_of (node : BlockWithMetadata) : list BlockWithMetadata :=
  match node with
  | mkBlock _ _ kids => node :: flat_map nodes_of kids
  end.

(** What the fetcher guarantees of a node: it has children only if its
    variant is children-capable and its children flag is truthy. *)
Definition leaf_unless_expanded (node : BlockWithMetadata) : Prop :=
  (children_capable (block node) = false -> children node = []) /\
  (children node <> [] ->
   children_capable (block node) = true /\
   truthy (hasChildren_of (block node)) = true).

(** The sub-object [getCover] reads the URL from is missing: [cover.file]
    for type ["file"], [cover.external] for any other type. *)
Definition cover_subobject_missing (cover : value) : bool :=
  if is_str (opt_prop cover "type") "file"
  then nullish (opt_prop cover "file")
  else nullish (opt_prop cover "external").

Section FetcherRuns.

Variable World : Type.
Variable list_children : value -> World -> result (list value) * World.

(** [api_fails_at depth blockId w e w']: in the fetch of [blockId] started
    in [w], the service call made [depth] levels below the root fails with
    [e], leaving [w'].  The call is reached after the earlier siblings on
    the way down have been fetched. *)
Inductive api_fails_at : nat -> value -> World -> error -> World -> Prop :=
| fails_here blockId w e w1 :
    list_children blockId w = (Throw e, w1) ->
    api_fails_at 0 blockId w e w1
| fails_below depth blockId w results w1 before b after fuel before' w2 e w3 :
    list_children blockId w = (Ok results, w1) ->
    parseBlocks results = Ok (before ++ b :: after)%list ->
    expand_children (fetchBlocksRecursively list_children fuel) before w1
      = Some (Ok before', w2) ->
    expands (block b) = true ->
    api_fails_at depth (id b) w2 e w3 ->
    api_fails_at (S depth) blockId w e w3.

End FetcherRuns.

Arguments api_fails_at {World} list_children depth blockId w e w'.

(** * Sample payloads *)

Definition plain_run (s : string) : value :=
  VObj [("plain_text", VStr s)].

Definition newline : string := String (ascii_of_nat 10) "".

(** The code block of the parser's test suite. *)
Definition hello_block : value :=
  VObj [("type", VStr "code");
        ("code",
         VObj [("rich_text",
                VArr [plain_run ("function hello() {" ++ newline);
                      plain_run ("  return 'world';" ++ newline);
                      plain_run "}"]);
               ("language", VStr "typescript");
               ("caption", VArr [plain_run "Example function"])])].

(** A code record with two runs, no language and no caption. *)
Definition bare_code_block : value :=
  VObj [("type", VStr "code");
        ("code", VObj [("rich_text", VArr [plain_run "let x"; plain_run " = 1;"])])].

(** The external image of the parser's test suite. *)
Definition external_image : value :=
  VObj [("type", VStr "image");
        ("image",
         VObj [("type", VStr "external");
               ("external", VObj [("url", VStr "https://example.com/image.jpg")]);
               ("caption", VArr [])])].

(** An image record of type ["file"] without a [file] object. *)
Definition image_without_file : value :=
  VObj [("type", VStr "image"); ("image", VObj [("type", VStr "file")])].

(** The batch of the parser's test suite: a paragraph followed by a record
    of unsupported type, with a divider added after it. *)
Definition sample_batch : list value :=
  [VObj [("id", VStr "block-1"); ("type", VStr "paragraph");
         ("paragraph", VObj [("rich_text", VArr [plain_run "Valid paragraph"])]);
         ("has_children", VBool false)];
   VObj [("id", VStr "block-2"); ("type", VStr "unsupported_type")];
   VObj [("id", VStr "block-3"); ("type", VStr "divider");
         ("divider", VObj [])]].

Definition styled_span (b i s u c : bool) (href : value) : ParsedRichText :=
  {| content := VStr "text"; link := href;
     annotations :=
       {| bold := VBool b; italic := VBool i; strikethrough := VBool s;
          underline := VBool u; code := VBool c; color := VStr "default" |} |}.

(** The span of the renderer's test suite: bold and italic. *)
Definition bold_italic : ParsedRichText :=
  {| content := VStr "Bold and Italic"; link := VUndefined;
     annotations :=
       {| bold := VBool true; italic := VBool true; strikethrough := VBool false;
          underline := VBool false; code := VBool false;
          color := VStr "default" |} |}.

(** A block record of the given type whose [has_children] flag is set. *)
Definition flagged (block_id type : string) : value :=
  VObj [("id", VStr block_id); ("type", VStr type); ("has_children", VBool true);
        (type, VObj [("rich_text", VArr [plain_run block_id])])].

(** A service with three blocks: a heading and a paragraph under the page,
    both flagged as having children, and a quote under the paragraph. *)
Definition sample_service (blockId : value) (w : unit)
    : result (list value) * unit :=
  if is_str blockId "page"
  then (Ok [flagged "h1" "heading_1"; flagged "p1" "paragraph"], w)
  else if is_str blockId "p1" then (Ok [flagged "q1" "quote"], w)
  else (Ok [], w).

(** A service that answers for the page and fails for the paragraph below
    it; the world counts the calls made. *)
Definition failing_service (blockId : value) (calls : nat)
    : result (list value) * nat :=
  if is_str blockId "page"
  then (Ok [flagged "h1" "heading_1"; flagged "p1" "paragraph"], S calls)
  else (Throw (ApiError "rate limited"), S calls).

(** A page whose cover is of type ["file"] and has no [file] object. *)
Definition page_with_broken_cover : value :=
  VObj [("id", VStr "page-1");
        ("cover", VObj [("type", VStr "file")]);
        ("properties",
         VObj [("title", VObj [("title", VArr [plain_run "Post"])])])].

(** * Further code *)

(** ** block-renderer.tsx: the block renderers *)

(** The markup is the element tree with the components expanded: a
    component element stands for what the component returns. *)

Definition className (name : string) : string * value :=
  ("className", VStr name).

(** A template literal with one substitution at its end. *)
Definition template (prefix : string) (v : value) : result string :=
  s <- to_string v ;;
  Ok (prefix ++ s)%string.

(** [{caption.length > 0 && (<tag className=...>...</tag>)}] *)
Definition caption_element (tag name : string) (caption : list ParsedRichText)
    : ReactNode :=
  if (0 <? length caption)%nat
  then Element tag [className name] [RichTextRenderer caption]
  else Child (VBool false).

Definition ParagraphBlockRenderer (content : list ParsedRichText) : ReactNode :=
  Element "p" [className "notion-paragraph"] [RichTextRenderer content].

Definition HeadingBlockRenderer (type : HeadingType)
    (content : list ParsedRichText) : ReactNode :=
  let HeadingTag :=
    match type with
    | heading_1 => "h1"
    | heading_2 => "h2"
    | heading_3 => "h3"
    end in
  Element HeadingTag [className ("notion-" ++ HeadingType_name type)]
    [RichTextRenderer content].

Definition ListItemBlockRenderer (type : ListItemType)
    (content : list ParsedRichText) : ReactNode :=
  Element "li" [className ("notion-" ++ ListItemType_name type)]
    [RichTextRenderer content].

Definition QuoteBlockRenderer (content : list ParsedRichText) : ReactNode :=
  Element "blockquote" [className "notion-quote"] [RichTextRenderer content].

Definition CodeBlockRenderer (content : string) (language : value)
    (caption : list ParsedRichText) : result ReactNode :=
  language_class <- template "language-" language ;;
  Ok (Element "div" [className "notion-code"]
        [Element "pre" []
           [Element "code" [className language_class] [Child (VStr content)]];
         caption_element "figcaption" "notion-code-caption" caption]).

Definition CalloutBlockRenderer (content : list ParsedRichText)
    (icon : option Icon) (color : value) : result ReactNode :=
  callout_class <- template "notion-callout notion-callout-" color ;;
  Ok (Element "div" [className callout_class]
        [match icon with
         | Some i =>
             Element "span" [className "notion-callout-icon"]
               [Child (if is_str (icon_type i) "emoji"
                       then icon_emoji i else VStr "📌")]
         | None => Child VUndefined
         end;
         Element "div" [className "notion-callout-content"]
           [RichTextRenderer content]]).

Definition DividerBlockRenderer : ReactNode :=
  Element "hr" [className "notion-divider"] [].

Definition ImageBlockRenderer (url : value) (caption : list ParsedRichText)
    : ReactNode :=
  Element "figure" [className "notion-image"]
    [Element "img" [("src", url); ("alt", VStr "")] [];
     caption_element "figcaption" "notion-image-caption" caption].

Definition BookmarkBlockRenderer (url : value) (caption : list ParsedRichText)
    : ReactNode :=
  Element "a"
    [("href", url); ("target", VStr "_blank");
     ("rel", VStr "noopener noreferrer"); className "notion-bookmark"]
    [Element "div" [className "notion-bookmark-title"] [Child url];
     caption_element "div" "notion-bookmark-caption" caption].

(** The children of a toggle are left to [NotionBlocksRenderer]. *)
Definition ToggleBlockRenderer (content : list ParsedRichText) : ReactNode :=
  Element "details" [className "notion-toggle"]
    [Element "summary" [] [RichTextRenderer content]].

Definition ToDoBlockRenderer (content : list ParsedRichText) (checked : value)
    : ReactNode :=
  Element "div" [className "notion-to-do"]
    [Element "input"
       [("type", VStr "checkbox"); ("checked", checked);
        ("readOnly", VBool true)] [];
     Element "span"
       [className (if truthy checked then "notion-to-do-checked" else "")]
       [RichTextRenderer content]].

Definition BlockRenderer (block : ParsedBlock) : result ReactNode :=
  match block with
  | ParagraphBlock content _ => Ok (ParagraphBlockRenderer content)
  | HeadingBlock type content _ => Ok (HeadingBlockRenderer type content)
  | ListItemBlock type content _ => Ok (ListItemBlockRenderer type content)
  | QuoteBlock content => Ok (QuoteBlockRenderer content)
  | CodeBlock content language caption =>
      CodeBlockRenderer content language caption
  | CalloutBlock content icon color => CalloutBlockRenderer content icon color
  | DividerBlock => Ok DividerBlockRenderer
  | ImageBlock url caption => Ok (ImageBlockRenderer url caption)
  | BookmarkBlock url caption => Ok (BookmarkBlockRenderer url caption)
  | ToggleBlock content _ => Ok (ToggleBlockRenderer content)
  | ToDoBlock content checked _ => Ok (ToDoBlockRenderer content checked)
  end.

(** The callback of [blocks.map] in [NotionBlocksRenderer]: the block, then
    its children in a container of their own when it has any.  The
    identifier is the [key] as the component passes it; what React does
    with a key when it creates the element is not part of the component. *)
Fixpoint renderBlockWithMeta (blockWithMeta : BlockWithMetadata)
    : result ReactNode :=
  match blockWithMeta with
  | mkBlock block_id block kids =>
      rendered <- BlockRenderer block ;;
      nested <- (if (0 <? length kids)%nat then
                   inner <- mapM renderBlockWithMeta kids ;;
                   Ok (Element "div" [className "notion-block-children"]
                         [Element "div" [className "notion-blocks"] inner])
                 else Ok (Child (VBool false))) ;;
      Ok (Element "div" [("key", block_id); className "notion-block"]
            [rendered; nested])
  end.

Definition NotionBlocksRenderer (blocks : list BlockWithMetadata)
    : result ReactNode :=
  inner <- mapM renderBlockWithMeta blocks ;;
  Ok (Element "div" [className "notion-blocks"] inner).

(** ** notion-parser.ts: batch conversion *)

Definition fromPages (pages : list value)
    : result (list NotionParser.NotionPost) :=
  mapM NotionParser.new pages.

(** ** post-detail.ts and post/route.ts: the posts *)

Section Posts.

(** [retrieve_page pageId] is [notion.pages.retrieve({ page_id })];
    [query_posts data_source_id page_size] is [notion.dataSources.query]
    with the fixed filter and sort of [getLatestPosts], followed by
    [.results].  The environment variables are arguments; what is written
    to the console is left out. *)
Variable World : Type.
Variable retrieve_page : value -> World -> result value * World.
Variable query_posts : value -> value -> World -> result (list value) * World.

Definition getPostById (NOTION_API_KEY : value) (pageId : value) (w : World)
    : result (option NotionParser.NotionPost) * World :=
  if negb (truthy NOTION_API_KEY) then (Ok None, w)
  else
    match retrieve_page pageId w with
    | (Ok page, w1) =>
        match NotionParser.new page with
        | Ok post => (Ok (Some post), w1)
        | Throw _ => (Ok None, w1)
        end
    | (Throw _, w1) => (Ok None, w1)
    end.

(** [limit: number = 5] *)
Definition default_limit (limit : value) : value :=
  match limit with
  | VUndefined => VNum 5
  | _ => limit
  end.

(** [getLatestPosts] of post/route.ts. *)
Definition getLatestPosts (DATABASE_ID : value) (limit : value) (w : World)
    : result (list NotionParser.NotionPost) * World :=
  match query_posts DATABASE_ID (default_limit limit) w with
  | (Ok results, w1) => (fromPages results, w1)
  | (Throw e, w1) => (Throw e, w1)
  end.

(** The later [getLatestPosts], which checks the environment and catches
    every exception. *)
Definition getLatestPosts_guarded (DATABASE_ID NOTION_API_KEY : value)
    (limit : value) (w : World)
    : result (list NotionParser.NotionPost) * World :=
  if negb (truthy DATABASE_ID) || negb (truthy NOTION_API_KEY) then (Ok [], w)
  else
    match query_posts DATABASE_ID (default_limit limit) w with
    | (Ok results, w1) =>
        match fromPages results with
        | Ok posts => (Ok posts, w1)
        | Throw _ => (Ok [], w1)
        end
    | (Throw _, w1) => (Ok [], w1)
    end.

End Posts.

Arguments getPostById {World} retrieve_page NOTION_API_KEY pageId w.
Arguments getLatestPosts {World} query_posts DATABASE_ID limit w.
Arguments getLatestPosts_guarded {World} query_posts DATABASE_ID
  NOTION_API_KEY limit w.

(** * Further vocabulary *)

(** A value that an [||] default leaves behind: truthy, or the default. *)
Definition truthy_or (default v : value) : Prop :=
  truthy v = true \/ v = default.

(** What the normalizer guarantees of a span: no field holds a falsy value
    other than its default. *)
Definition normalized_span (span : ParsedRichText) : Prop :=
  truthy_or (VStr "") (content span) /\
  truthy_or VUndefined (link span) /\
  truthy_or (VBool false) (bold (annotations span)) /\
  truthy_or (VBool false) (italic (annotations span)) /\
  truthy_or (VBool false) (strikethrough (annotations span)) /\
  truthy_or (VBool false) (underline (annotations span)) /\
  truthy_or (VBool false) (code (annotations span)) /\
  truthy (color (annotations span)) = true.

(** A result that is not an exception other than a [TypeError]. *)
Definition only_TypeError {A : Type} (r : result A) : Prop :=
  match r with
  | Ok _ => True
  | Throw e => e = TypeError
  end.

(** The [type] field of a parsed block. *)
Definition ParsedBlock_type (b : ParsedBlock) : string :=
  match b with
  | ParagraphBlock _ _ => "paragraph"
  | HeadingBlock type _ _ => HeadingType_name type
  | ListItemBlock type _ _ => ListItemType_name type
  | QuoteBlock _ => "quote"
  | CodeBlock _ _ _ => "code"
  | CalloutBlock _ _ _ => "callout"
  | DividerBlock => "divider"
  | ImageBlock _ _ => "image"
  | BookmarkBlock _ _ => "bookmark"
  | ToggleBlock _ _ => "toggle"
  | ToDoBlock _ _ _ => "to_do"
  end.

(** The record types the fetcher descends into. *)
Definition children_capable_types : list string :=
  ["paragraph"; "bulleted_list_item"; "numbered_list_item"; "toggle"; "to_do"].

(** The nesting order of [renderer_nesting], read from a raw run record. *)
Definition record_nesting (rt : value) : list (value * string) :=
  let ann := opt_prop rt "annotations" in
  [(opt_prop (opt_prop (opt_prop rt "text") "link") "url", "a");
   (opt_prop ann "code", "code");
   (opt_prop ann "underline", "u");
   (opt_prop ann "strikethrough", "s");
   (opt_prop ann "italic", "em");
   (opt_prop ann "bold", "strong")].

(** The number of elements of a tree whose [className] is [name]. *)
Fixpoint count_class (name : string) (node : ReactNode) : nat :=
  match node with
  | Child _ => 0
  | Element _ props kids =>
      (if is_str (lookup "className" props) name then 1 else 0)
      + list_sum (map (count_class name) kids)
  | Fragment kids => list_sum (map (count_class name) kids)
  end.

Definition has_children (node : BlockWithMetadata) : bool :=
  (0 <? length (children node))%nat.


(** The conditions under which [new NotionPost(page)] does not raise. *)
Definition categories_ok (prop : value) : bool :=
  match opt_prop prop "multi_select" with
  | VUndefined | VNull => true
  | VArr items => forallb (fun item => negb (nullish item)) items
  | _ => false
  end.

Definition cover_ok (cover : value) : bool :=
  negb (truthy cover) || negb (cover_subobject_missing cover).

Definition constructible (page : value) : bool :=
  negb (nullish page) &&
  negb (nullish (opt_prop page "properties")) &&
  categories_ok (opt_prop (opt_prop page "properties") "categories") &&
  cover_ok (opt_prop page "cover").

(** * Further sample payloads *)

(** A run in bold with a link. *)
Definition bold_link_run : value :=
  VObj [("plain_text", VStr "docs");
        ("text", VObj [("link", VObj [("url", VStr "https://example.com")])]);
        ("annotations", VObj [("bold", VBool true); ("italic", VBool false)])].

(** A complete page: a title in two runs, two categories, an external
    cover. *)
Definition sample_page : value :=
  VObj [("id", VStr "page-2");
        ("cover",
         VObj [("type", VStr "external");
               ("external", VObj [("url", VStr "https://example.com/c.png")])]);
        ("properties",
         VObj [("title",
                VObj [("title", VArr [plain_run "Hello, "; plain_run "world"])]);
               ("categories",
                VObj [("multi_select",
                       VArr [VObj [("name", VStr "TypeScript")];
                             VObj [("name", VStr "Next.js")]])])])].

(** A page service that knows [sample_page] and [page_with_broken_cover];
    the world counts the calls. *)
Definition page_service (pageId : value) (calls : nat) : result value * nat :=
  if is_str pageId "page-2" then (Ok sample_page, S calls)
  else if is_str pageId "page-1" then (Ok page_with_broken_cover, S calls)
  else (Throw (ApiError "object_not_found"), S calls).

(** A query service that answers with the two pages, whatever is asked. *)
Definition query_service (data_source_id page_size : value) (calls : nat)
    : result (list value) * nat :=
  (Ok [sample_page; page_with_broken_cover], S calls).

(** A query service that answers with [sample_page] twice. *)
Definition sound_query_service (data_source_id page_size : value) (calls : nat)
    : result (list value) * nat :=
  (Ok [sample_page; sample_page], S calls).

(** A fetched tree: a heading, and a paragraph with a quote below it. *)
Definition sample_tree : list BlockWithMetadata :=
  [{| id := VStr "h1"; block := HeadingBlock heading_1 [] (VBool false);
      children := [] |};
   {| id := VStr "p1"; block := ParagraphBlock [] (VBool true);
      children := [{| id := VStr "q1"; block := QuoteBlock [];
                      children := [] |}] |}].

(** A service whose answer for the page holds a [null] between two
    records. *)
Definition service_with_null (blockId : value) (w : unit)
    : result (list value) * unit :=
  (Ok [flagged "h1" "heading_1"; VNull; flagged "q1" "quote"], w).

(** The glyph shown for the icon of a callout record: the emoji of an
    emoji icon, a pin for any other icon, nothing without an icon. *)
Definition callout_glyph (block : value) : ReactNode :=
  let icon := opt_prop (opt_prop block "callout") "icon" in
  if truthy icon then
    Element "span" [className "notion-callout-icon"]
      [Child (if is_str (opt_prop icon "type") "emoji"
              then opt_prop icon "emoji" else VStr "📌")]
  else Child VUndefined.

(** A service that counts the calls made to it next to its world. *)
Definition counting {World : Type}
    (list_children : value -> World -> result (list value) * World)
    (blockId : value) (state : World * nat)
    : result (list value) * (World * nat) :=
  let (answer, w') := list_children blockId (fst state) in
  (answer, (w', S (snd state))).

(** The nodes of a forest that the fetcher descended into. *)
Definition expanded_nodes (blocks : list BlockWithMetadata)
    : list BlockWithMetadata :=
  filter (fun node => expands (block node)) (flat_map nodes_of blocks).

(** A callout with an external icon. *)
Definition callout_with_image_icon : value :=
  VObj [("type", VStr "callout");
        ("callout",
         VObj [("rich_text", VArr [plain_run "Note"]);
               ("icon",
                VObj [("type", VStr "external");
                      ("external", VObj [("url", VStr "https://e.com/i.png")])]);
               ("color", VStr "blue_background")])].

(** The span of a run that carries nothing: empty content, no link, the
    default annotations. *)
Definition default_span : ParsedRichText :=
  {| content := VStr ""; link := VUndefined;
     annotations := default_annotations |}.

(** The sub-object [getCover] reads the URL from: [cover.file] for type
    ["file"], [cover.external] for any other type. *)
Definition cover_subobject (cover : value) : value :=
  if is_str (opt_prop cover "type") "file"
  then opt_prop cover "file"
  else opt_prop cover "external".


(** A page whose cover is the empty string. *)
Definition page_with_empty_cover : value :=
  VObj [("id", VStr "page-3"); ("cover", VStr ""); ("properties", VObj [])].


(** * Properties *)

(** ** The result monad and property reads *)

Lemma bind_Ok {A B : Type} (r : result A) (k : A -> result B) (b : B) :
  bind r k = Ok b -> exists a, r = Ok a /\ k a = Ok b.
Proof.
  destruct r as [a|e]; simpl; intros H; [eauto | discriminate].
Qed.

Lemma get_prop_defined (v : value) (k : string) :
  nullish v = false -> get_prop v k = Ok (opt_prop v k).
Proof.
  destruct v; simpl; intros H; try discriminate; reflexivity.
Qed.

Lemma get_prop_nullish (v : value) (k : string) :
  nullish v = true -> get_prop v k = Throw TypeError.
Proof.
  destruct v; simpl; intros H; try discriminate; reflexivity.
Qed.

Lemma truthy_not_nullish (v : value) : truthy v = true -> nullish v = false.
Proof.
  destruct v; simpl; intros H; try discriminate; reflexivity.
Qed.

Lemma or_else_falsy (a b : value) : truthy a = false -> a ||| b = b.
Proof.
  unfold or_else; intros ->; reflexivity.
Qed.

Lemma or_else_truthy (a b : value) : truthy a = true -> a ||| b = a.
Proof.
  unfold or_else; intros ->; reflexivity.
Qed.

Lemma is_str_eq (v : value) (s : string) : is_str v s = true -> v = VStr s.
Proof.
  destruct v; simpl; try discriminate.
  intros H; apply String.eqb_eq in H; congruence.
Qed.

(** ** [mapM] *)

Section MapM.

Context {A B : Type} (f : A -> result B).

Lemma mapM_Ok_Forall2 (l : list A) (ys : list B) :
  mapM f l = Ok ys -> Forall2 (fun x y => f x = Ok y) l ys.
Proof.
  revert ys; induction l as [|x rest IH]; simpl; intros ys H.
  - injection H as <-; constructor.
  - apply bind_Ok in H as (y & Hy & H).
    apply bind_Ok in H as (ys' & Hys & H).
    injection H as <-; constructor; auto.
Qed.


Lemma mapM_returns (l : list A) :
  returns (mapM f l) = forallb (fun x => returns (f x)) l.
Proof.
  induction l as [|x rest IH]; simpl; [reflexivity|].
  destruct (f x) as [y|e]; simpl; [|reflexivity].
  rewrite <- IH; destruct (mapM f rest); reflexivity.
Qed.

Lemma mapM_total (l : list A) :
  Forall (fun x => exists y, f x = Ok y) l ->
  exists ys, mapM f l = Ok ys /\ length ys = length l.
Proof.
  induction 1 as [|x rest [y Hy] _ (ys & Hys & Hlen)]; simpl.
  - exists []; auto.
  - exists (y :: ys); rewrite Hy, Hys; simpl; auto.
Qed.


End MapM.

(** ** The rich text normalizer *)

Lemma parseRun_returns (rt : value) : returns (parseRun rt) = negb (nullish rt).
Proof.
  destruct rt; reflexivity.
Qed.

Lemma parseRun_defined (rt : value) :
  nullish rt = false -> exists span, parseRun rt = Ok span.
Proof.
  intros H; pose proof (parseRun_returns rt) as R; rewrite H in R.
  destruct (parseRun rt) as [span|e]; [eauto | discriminate].
Qed.

Lemma parseRichText_runs (elems : list value) :
  Forall (fun rt => nullish rt = false) elems ->
  exists spans,
    parseRichText (VArr elems) = Ok spans /\ length spans = length elems.
Proof.
  intros H; simpl; apply mapM_total.
  eapply Forall_impl; [|exact H].
  intros rt; apply parseRun_defined.
Qed.

Lemma parseRichText_no_nullish (v : value) :
  has_nullish_element v = false -> exists spans, parseRichText v = Ok spans.
Proof.
  destruct v; simpl; eauto.
  intros H.
  destruct (parseRichText_runs elems) as (spans & Hs & _); [|eauto].
  apply Forall_forall; intros rt Hin.
  destruct (nullish rt) eqn:E; [|reflexivity].
  assert (existsb nullish elems = true) by (apply existsb_exists; eauto).
  congruence.
Qed.

Lemma parseRun_nullish (rt : value) :
  nullish rt = true -> parseRun rt = Throw TypeError.
Proof.
  destruct rt; simpl; intros H; try discriminate; reflexivity.
Qed.

Lemma parseRichText_nullish_element (elems : list value) :
  existsb nullish elems = true -> mapM parseRun elems = Throw TypeError.
Proof.
  induction elems as [|rt rest IH]; simpl; [discriminate|].
  destruct (nullish rt) eqn:Hrt; simpl; intros H.
  - rewrite (parseRun_nullish rt Hrt); reflexivity.
  - destruct (parseRun_defined rt Hrt) as [span ->]; simpl.
    rewrite (IH H); reflexivity.
Qed.

(** C2: [parseRichText] is not total.  For an input that is not an array
    it returns the empty sequence; for an array none of whose elements is
    [null] or [undefined] it returns one span per element, in order, an
    element that is not an object giving the span of defaults; for an
    array with a [null] or [undefined] element it raises a [TypeError]. *)
Theorem parseRichText_returns_unless_nullish_element (v : value) :
  (if has_nullish_element v
   then parseRichText v = Throw TypeError
   else exists spans,
          parseRichText v = Ok spans /\
          match v with
          | VArr elems =>
              length spans = length elems /\
              Forall2 (fun rt span => parseRun rt = Ok span) elems spans
          | _ => spans = []
          end) /\
  (forall rt,
     nullish rt = false -> (forall fields, rt <> VObj fields) ->
     parseRun rt = Ok default_span).
Proof.
  split.
  - destruct (has_nullish_element v) eqn:Hnull.
    + destruct v; try discriminate Hnull.
      apply parseRichText_nullish_element; exact Hnull.
    + destruct (parseRichText_no_nullish v Hnull) as [spans Hspans].
      exists spans; split; [exact Hspans|].
      destruct v; simpl in Hspans; try (injection Hspans as <-; reflexivity).
      pose proof (mapM_Ok_Forall2 _ _ _ Hspans) as Hall.
      split; [symmetry; exact (Forall2_length Hall) | exact Hall].
  - intros rt Hrt Hshape; destruct rt; try discriminate Hrt; try reflexivity.
    exfalso; eapply Hshape; reflexivity.
Qed.

(** C2, as stated, fails: an array holding [null] makes the normalizer
    raise a [TypeError]. *)
Lemma parseRichText_raises_on_null_element :
  parseRichText (VArr [VNull]) = Throw TypeError /\
  ~ (forall v, exists spans, parseRichText v = Ok spans).
Proof.
  split; [reflexivity|].
  intros H; destruct (H (VArr [VNull])) as [spans Hs]; discriminate Hs.
Qed.

(** C5: for an array whose elements are all neither [null] nor
    [undefined], the normalizer returns one span per element, in the same
    order; for any input that is not an array it returns the empty
    sequence. *)
Theorem parseRichText_one_span_per_run (elems : list value) :
  Forall (fun rt => nullish rt = false) elems ->
  (exists spans,
     parseRichText (VArr elems) = Ok spans /\
     length spans = length elems /\
     Forall2 (fun rt span => parseRun rt = Ok span) elems spans) /\
  (forall v, (forall l, v <> VArr l) -> parseRichText v = Ok []).
Proof.
  intros H; split.
  - destruct (parseRichText_runs _ H) as (spans & Hs & Hlen).
    exists spans; repeat split; auto.
    apply mapM_Ok_Forall2; exact Hs.
  - intros v Hv; destruct v; try reflexivity.
    exfalso; eapply Hv; reflexivity.
Qed.

Lemma parseRichText_one_span_per_run_witness :
  Forall (fun rt => nullish rt = false) [plain_run "a"; VNum 7; plain_run "b"] /\
  exists spans,
    parseRichText (VArr [plain_run "a"; VNum 7; plain_run "b"]) = Ok spans /\
    length spans = 3%nat.
Proof.
  assert (H : Forall (fun rt => nullish rt = false)
                [plain_run "a"; VNum 7; plain_run "b"])
    by (repeat constructor).
  split; [exact H|].
  destruct (parseRichText_one_span_per_run _ H) as ((spans & Hs & Hlen & _) & _).
  exists spans; split; [exact Hs | exact Hlen].
Defined.

(** C5, as stated, fails: for the two-element array [[run, undefined]] no
    sequence of two spans is returned. *)
Lemma parseRichText_length_fails_on_undefined_element :
  ~ (exists spans,
       parseRichText (VArr [plain_run "a"; VUndefined]) = Ok spans /\
       length spans = 2%nat).
Proof.
  intros (spans & Hs & _); discriminate Hs.
Qed.





(** ** The block parser *)

Lemma typed_block_is_object (block : value) (t : string) :
  is_str (opt_prop block "type") t = true ->
  nullish block = false /\ get_prop block "type" = Ok (VStr t).
Proof.
  intros H; apply is_str_eq in H.
  destruct block; simpl in *; try discriminate.
  rewrite H; auto.
Qed.

Lemma parseRichText_or_empty (v : value) :
  has_nullish_element v = false ->
  exists spans, parseRichText (v ||| VArr []) = Ok spans.
Proof.
  intros H; unfold or_else; destruct (truthy v).
  - apply parseRichText_no_nullish; exact H.
  - exists []; reflexivity.
Qed.

(** *** Code blocks *)

Lemma code_body_or_else (codeData : value) (runs : list value) :
  code_body codeData = Some runs ->
  opt_prop codeData "rich_text" ||| VArr [] = VArr runs.
Proof.
  unfold code_body, or_else.
  destruct (opt_prop codeData "rich_text") as [| |b|n|s|l|f]; simpl; intros H;
    try congruence;
    [destruct b | destruct (negb (n =? 0)%Z) | destruct (negb (s =? "")%string)];
    congruence.
Qed.

Lemma append_empty_r (s : string) : (s ++ "")%string = s.
Proof.
  induction s as [|c s IH]; simpl; [reflexivity | rewrite IH; reflexivity].
Qed.

Lemma join_empty_strings (texts : list string) :
  join_empty (map VStr texts) = Ok (String.concat "" texts).
Proof.
  induction texts as [|s rest IH]; simpl; [reflexivity|].
  rewrite IH; simpl.
  destruct rest; simpl; [rewrite append_empty_r|]; reflexivity.
Qed.

Lemma plain_texts_of_runs (runs : list value) (texts : list string) :
  Forall2 (fun rt s => nullish rt = false /\ opt_prop rt "plain_text" = VStr s)
    runs texts ->
  mapM (fun rt => get_prop rt "plain_text") runs = Ok (map VStr texts).
Proof.
  induction 1 as [|rt s runs' texts' [Hrt Hs] _ IH]; simpl; [reflexivity|].
  rewrite (get_prop_defined _ _ Hrt), Hs; simpl.
  rewrite IH; reflexivity.
Qed.

Lemma parseCode_runs (block : value) (runs : list value) (texts : list string) :
  let codeData := opt_prop block "code" in
  nullish block = false ->
  code_body codeData = Some runs ->
  Forall2 (fun rt s => nullish rt = false /\ opt_prop rt "plain_text" = VStr s)
    runs texts ->
  has_nullish_element (opt_prop codeData "caption") = false ->
  exists caption,
    parseCode block
      = Ok (CodeBlock (String.concat "" texts)
              (opt_prop codeData "language" ||| VStr "plain text") caption).
Proof.
  intros codeData Hblock Hbody Hruns Hcap.
  destruct (parseRichText_or_empty _ Hcap) as [caption Hcaption].
  exists caption; unfold parseCode.
  rewrite (get_prop_defined _ _ Hblock); simpl.
  fold codeData.
  rewrite (code_body_or_else _ _ Hbody).
  rewrite (plain_texts_of_runs _ _ Hruns); simpl.
  rewrite join_empty_strings; simpl.
  rewrite Hcaption; reflexivity.
Qed.

(** C6: the content of a parsed code block is the concatenation, in order
    and with nothing in between, of the plain texts of the runs of its
    body; its language is ["plain text"] when the record has none; and the
    three runs of the test suite give the expected content. *)
Theorem parseCode_content_is_concatenation
    (block : value) (runs : list value) (texts : list string) :
  let codeData := opt_prop block "code" in
  is_str (opt_prop block "type") "code" = true ->
  code_body codeData = Some runs ->
  Forall2 (fun rt s => nullish rt = false /\ opt_prop rt "plain_text" = VStr s)
    runs texts ->
  has_nullish_element (opt_prop codeData "caption") = false ->
  (exists language caption,
     parseBlock block
       = Ok (Some (CodeBlock (String.concat "" texts) language caption)) /\
     language = (opt_prop codeData "language" ||| VStr "plain text") /\
     (nullish (opt_prop codeData "language") = true ->
      language = VStr "plain text")) /\
  (exists language caption,
     parseBlock hello_block
       = Ok (Some (CodeBlock
                     ("function hello() {" ++ newline ++
                      "  return 'world';" ++ newline ++ "}")
                     language caption))).
Proof.
  intros codeData Htype Hbody Hruns Hcap; split.
  2:{ eexists; eexists; reflexivity. }
  destruct (typed_block_is_object block _ Htype) as [Hblock Hty].
  destruct (parseCode_runs block runs texts Hblock Hbody Hruns Hcap)
    as [caption Hparse].
  exists (opt_prop codeData "language" ||| VStr "plain text"), caption.
  split; [|split; [reflexivity|]].
  - unfold parseBlock; rewrite Hty; cbn [bind is_str String.eqb Ascii.eqb Bool.eqb].
    unfold some; rewrite Hparse; reflexivity.
  - intros Hlang; apply or_else_falsy.
    destruct (opt_prop codeData "language"); try discriminate; reflexivity.
Qed.

Lemma parseCode_content_is_concatenation_witness :
  exists caption,
    parseBlock bare_code_block
      = Ok (Some (CodeBlock "let x = 1;" (VStr "plain text") caption)).
Proof.
  assert (Hruns :
    Forall2 (fun rt s => nullish rt = false /\ opt_prop rt "plain_text" = VStr s)
      [plain_run "let x"; plain_run " = 1;"] ["let x"; " = 1;"])
    by (repeat constructor).
  destruct (parseCode_content_is_concatenation bare_code_block _ _
              eq_refl eq_refl Hruns eq_refl)
    as ((language & caption & Hparse & _ & Hdefault) & _).
  exists caption.
  rewrite <- (Hdefault eq_refl); exact Hparse.
Defined.

(** *** Image blocks *)

Lemma image_url_defined (imageData : value) :
  truthy imageData = true ->
  image_url imageData
    = Ok (if is_str (opt_prop imageData "type") "external"
          then opt_prop (opt_prop imageData "external") "url"
          else opt_prop (opt_prop imageData "file") "url").
Proof.
  intros H; apply truthy_not_nullish in H.
  unfold image_url; rewrite !(get_prop_defined _ _ H); simpl.
  destruct (is_str (opt_prop imageData "type") "external"); reflexivity.
Qed.

(** C7: for an image record the parser returns no result, without raising,
    exactly when no usable URL can be derived; when one can, and the
    caption holds no [null] run, it returns an image block carrying that
    URL. *)
Theorem parseImage_no_result_iff_no_url (block : value) :
  is_str (opt_prop block "type") "image" = true ->
  (parseBlock block = Ok None <-> usable_url block = None) /\
  (forall url,
     usable_url block = Some url ->
     has_nullish_element (opt_prop (opt_prop block "image") "caption") = false ->
     exists caption, parseBlock block = Ok (Some (ImageBlock url caption))).
Proof.
  intros Htype.
  destruct (typed_block_is_object block _ Htype) as [Hblock Hty].
  assert (Hparse : parseBlock block = parseImage block).
  { unfold parseBlock; rewrite Hty; reflexivity. }
  rewrite Hparse; unfold parseImage, usable_url.
  rewrite (get_prop_defined _ _ Hblock); simpl.
  destruct (truthy (opt_prop block "image")) eqn:Himg; simpl.
  2:{ split; [tauto | discriminate]. }
  rewrite (image_url_defined _ Himg); simpl.
  set (url := if is_str (opt_prop (opt_prop block "image") "type") "external"
              then _ else _).
  destruct (truthy url) eqn:Hurl; simpl.
  2:{ split; [tauto | discriminate]. }
  rewrite (get_prop_defined _ _ (truthy_not_nullish _ Himg)); simpl.
  split.
  - split; [|discriminate].
    destruct (parseRichText _); simpl; discriminate.
  - intros url' Hsome Hcap; injection Hsome as <-.
    destruct (parseRichText_or_empty _ Hcap) as [caption Hcaption].
    exists caption; rewrite Hcaption; reflexivity.
Qed.

Lemma parseImage_no_result_iff_no_url_witness :
  (exists caption,
     parseBlock external_image
       = Ok (Some (ImageBlock (VStr "https://example.com/image.jpg") caption))) /\
  parseBlock image_without_file = Ok None.
Proof.
  split.
  - destruct (parseImage_no_result_iff_no_url external_image eq_refl)
      as [_ Hsome].
    destruct (Hsome _ eq_refl eq_refl) as [caption Hparse].
    exists caption; exact Hparse.
  - apply (parseImage_no_result_iff_no_url image_without_file eq_refl).
    reflexivity.
Defined.

(** *** Block records *)

Lemma is_run_not_nullish (rt : value) : is_run rt = true -> nullish rt = false.
Proof.
  destruct rt; simpl; try discriminate; reflexivity.
Qed.

Lemma rich_text_ok_no_nullish (v : value) :
  rich_text_ok v = true -> has_nullish_element v = false.
Proof.
  destruct v; simpl; try reflexivity.
  intros H; rewrite forallb_forall in H.
  destruct (existsb nullish elems) eqn:E; [|reflexivity].
  apply existsb_exists in E as (rt & Hin & Hnull).
  rewrite (is_run_not_nullish _ (H _ Hin)) in Hnull; discriminate.
Qed.

Lemma rich_text_ok_parses (v : value) :
  rich_text_ok v = true ->
  exists spans, parseRichText (v ||| VArr []) = Ok spans.
Proof.
  intros H; apply parseRichText_or_empty, rich_text_ok_no_nullish, H.
Qed.

Lemma runs_have_texts (elems : list value) :
  forallb is_run elems = true ->
  exists texts,
    Forall2 (fun rt s => nullish rt = false /\ opt_prop rt "plain_text" = VStr s)
      elems texts.
Proof.
  induction elems as [|rt rest IH]; simpl; intros H.
  - exists []; constructor.
  - apply andb_true_iff in H as [Hrt Hrest].
    destruct (IH Hrest) as [texts Htexts].
    destruct rt; simpl in Hrt; try discriminate.
    destruct (lookup "plain_text" fields) eqn:E; try discriminate.
    exists (s :: texts); constructor; auto.
Qed.

Lemma rich_text_ok_code_body (codeData : value) :
  rich_text_ok (opt_prop codeData "rich_text") = true ->
  exists runs texts,
    code_body codeData = Some runs /\
    Forall2 (fun rt s => nullish rt = false /\ opt_prop rt "plain_text" = VStr s)
      runs texts.
Proof.
  unfold code_body.
  destruct (opt_prop codeData "rich_text"); simpl; try discriminate.
  - intros _; exists [], []; split; [reflexivity | constructor].
  - intros _; exists [], []; split; [reflexivity | constructor].
  - intros H; destruct (runs_have_texts _ H) as [texts Ht].
    exists elems, texts; auto.
Qed.

Lemma parseImage_defined (block : value) :
  nullish block = false ->
  has_nullish_element (opt_prop (opt_prop block "image") "caption") = false ->
  exists r, parseImage block = Ok r.
Proof.
  intros Hblock Hcap; unfold parseImage.
  rewrite (get_prop_defined _ _ Hblock); simpl.
  destruct (truthy (opt_prop block "image")) eqn:Himg; simpl; [|eauto].
  rewrite (image_url_defined _ Himg); simpl.
  match goal with |- context [truthy ?u] => destruct (truthy u) end;
    simpl; [|eauto].
  rewrite (get_prop_defined _ _ (truthy_not_nullish _ Himg)); simpl.
  destruct (parseRichText_or_empty _ Hcap) as [caption Hcaption].
  rewrite Hcaption; simpl; eauto.
Qed.

Lemma callout_icon_defined (calloutData : value) :
  exists icon,
    (if truthy (opt_prop calloutData "icon") then
       iconData <- get_prop calloutData "icon" ;;
       type <- get_prop iconData "type" ;;
       emoji <- get_prop iconData "emoji" ;;
       url <- (if is_str type "external" then
                 external <- get_prop iconData "external" ;;
                 Ok (opt_prop external "url")
               else
                 file <- get_prop iconData "file" ;;
                 Ok (opt_prop file "url")) ;;
       Ok (Some {| icon_type := type; icon_emoji := emoji; icon_url := url |})
     else Ok None) = Ok icon.
Proof.
  destruct (truthy (opt_prop calloutData "icon")) eqn:Hicon; [|eauto].
  assert (Hdata : nullish calloutData = false)
    by (destruct calloutData; simpl in *; try discriminate; reflexivity).
  pose proof (truthy_not_nullish _ Hicon) as Hi.
  rewrite (get_prop_defined _ _ Hdata); simpl.
  rewrite !(get_prop_defined _ _ Hi); simpl.
  destruct (is_str _ "external"); simpl; eauto.
Qed.

(** One arm of the [switch] in [parseBlock]. *)
Ltac switch_case t name :=
  let E := fresh "E" in
  destruct (is_str (VStr t) name) eqn:E;
  [apply is_str_eq in E; injection E as -> | clear E].

Ltac parse_fields fields Hrt Hcap :=
  unfold some, parseParagraph, parseHeading, parseListItem, parseQuote,
    parseCallout, parseDivider, parseBookmark, parseToggle, parseToDo;
  cbn [HeadingType_name ListItemType_name];
  rewrite ?(get_prop_defined (VObj fields) _ eq_refl);
  cbn [bind opt_prop];
  try (destruct (callout_icon_defined (lookup "callout" fields)) as [? ->]);
  cbn [bind];
  try (destruct (rich_text_ok_parses _ Hrt) as [? ->]);
  try (destruct (rich_text_ok_parses _ Hcap) as [? ->]);
  cbn [bind]; eauto.

Lemma parseBlock_defined (block : value) :
  block_record block = true -> exists r, parseBlock block = Ok r.
Proof.
  destruct block as [| | | | | |fields]; try discriminate.
  unfold block_record, parseBlock.
  change (get_prop (VObj fields) "type") with (Ok (lookup "type" fields)).
  cbn [bind].
  destruct (lookup "type" fields) as [| | | |t| |] eqn:Ht;
    try solve [intros _; cbn [is_str]; eauto].
  intros H; apply andb_true_iff in H as [Hrt Hcap].
  switch_case t "paragraph"; [parse_fields fields Hrt Hcap|].
  switch_case t "heading_1"; [parse_fields fields Hrt Hcap|].
  switch_case t "heading_2"; [parse_fields fields Hrt Hcap|].
  switch_case t "heading_3"; [parse_fields fields Hrt Hcap|].
  switch_case t "bulleted_list_item"; [parse_fields fields Hrt Hcap|].
  switch_case t "numbered_list_item"; [parse_fields fields Hrt Hcap|].
  switch_case t "quote"; [parse_fields fields Hrt Hcap|].
  switch_case t "code".
  { destruct (rich_text_ok_code_body _ Hrt) as (runs & texts & Hbody & Hruns).
    destruct (parseCode_runs (VObj fields) runs texts eq_refl Hbody Hruns
                (rich_text_ok_no_nullish _ Hcap)) as [caption Hparse].
    unfold some; rewrite Hparse; cbn [bind]; eauto. }
  switch_case t "callout"; [parse_fields fields Hrt Hcap|].
  switch_case t "divider"; [parse_fields fields Hrt Hcap|].
  switch_case t "image".
  { apply parseImage_defined; [reflexivity|].
    apply rich_text_ok_no_nullish; exact Hcap. }
  switch_case t "bookmark"; [parse_fields fields Hrt Hcap|].
  switch_case t "toggle"; [parse_fields fields Hrt Hcap|].
  switch_case t "to_do"; [parse_fields fields Hrt Hcap|].
  eauto.
Qed.

(** *** Batch parsing *)

Lemma block_record_not_nullish (b : value) :
  block_record b = true -> nullish b = false.
Proof.
  destruct b; simpl; try discriminate; reflexivity.
Qed.

Lemma unrecognized_no_result (b : value) :
  nullish b = false ->
  recognized (opt_prop b "type") = false ->
  parseBlock b = Ok None.
Proof.
  intros Hb H; unfold parseBlock.
  rewrite (get_prop_defined _ _ Hb); cbn [bind].
  unfold recognized, recognized_types in H; cbn [existsb] in H.
  repeat (apply orb_false_iff in H as [? H]).
  repeat match goal with E : is_str _ _ = false |- _ => rewrite E; clear E end.
  reflexivity.
Qed.

Lemma parseBlocks_loop_survivors (blocks : list value) :
  Forall (fun b => block_record b = true) blocks ->
  forall acc, exists nodes,
    parseBlocks_loop acc blocks = Ok (acc ++ nodes)%list /\
    Forall2 stub_of (filter survives blocks) nodes.
Proof.
  induction 1 as [|b rest Hb _ IH]; intros acc; simpl.
  - exists []; rewrite app_nil_r; split; [reflexivity | constructor].
  - destruct (parseBlock_defined _ Hb) as [r Hr].
    unfold survives at 1; rewrite Hr; simpl.
    destruct r as [parsed|].
    + rewrite (get_prop_defined _ _ (block_record_not_nullish _ Hb)); simpl.
      destruct (IH (acc ++ [{| id := opt_prop b "id"; block := parsed;
                               children := [] |}])%list)
        as (nodes & Hloop & Hstubs).
      eexists; split.
      * rewrite Hloop, <- app_assoc; reflexivity.
      * constructor; [|exact Hstubs].
        repeat split; assumption.
    + apply IH.
Qed.

(** C4: batch parsing of raw block records returns one block node stub per
    surviving record, in the order of the records: the parsed block, the
    record's identifier and no children.  A record of unrecognized type
    yields no result rather than an error and does not survive, so the
    output may be shorter than the input. *)
Theorem parseBlocks_keeps_survivors_in_order (blocks : list value) :
  Forall (fun b => block_record b = true) blocks ->
  exists nodes,
    parseBlocks blocks = Ok nodes /\
    Forall2 stub_of (filter survives blocks) nodes /\
    length nodes <= length blocks /\
    (forall b, In b blocks ->
       recognized (opt_prop b "type") = false ->
       parseBlock b = Ok None /\ survives b = false).
Proof.
  intros Hall.
  destruct (parseBlocks_loop_survivors blocks Hall []) as (nodes & Hloop & Hstubs).
  exists nodes; repeat split; auto.
  - rewrite <- (Forall2_length Hstubs); apply filter_length_le.
  - rewrite Forall_forall in Hall.
    apply unrecognized_no_result;
      [apply block_record_not_nullish, Hall|]; assumption.
  - unfold survives.
    rewrite Forall_forall in Hall.
    rewrite (unrecognized_no_result b); auto.
    apply block_record_not_nullish, Hall; assumption.
Qed.

Lemma parseBlocks_keeps_survivors_in_order_witness :
  Forall (fun b => block_record b = true) sample_batch /\
  exists first second,
    parseBlocks sample_batch = Ok [first; second] /\
    id first = VStr "block-1" /\ id second = VStr "block-3".
Proof.
  assert (Hall : Forall (fun b => block_record b = true) sample_batch)
    by (repeat constructor).
  split; [exact Hall|].
  destruct (parseBlocks_keeps_survivors_in_order sample_batch Hall)
    as (nodes & Hparse & Hstubs & _).
  vm_compute in Hparse.
  injection Hparse as <-.
  do 2 eexists; split; [reflexivity | split; reflexivity].
Defined.

(** ** The rich text renderer *)

Lemma renderRun_chain (index : nat) (text : ParsedRichText) :
  wrapper_chain (renderRun index text) = "span" :: wrappers (renderer_nesting text) /\
  innermost (renderRun index text) = Child (content text).
Proof.
  destruct text as [c l [b i s u cd col]].
  unfold renderRun, wrappers, renderer_nesting; simpl.
  destruct (truthy b), (truthy i), (truthy s), (truthy u), (truthy cd),
    (truthy l); split; reflexivity.
Qed.

Lemma renderRun_link (index : nat) (text : ParsedRichText) :
  truthy (link text) = true ->
  exists styled,
    renderRun index text
      = Element "span" [("key", VNum (Z.of_nat index))]
          [Element "a" (link_props (link text)) [styled]] /\
    wrapper_chain styled
      = wrappers (tl (renderer_nesting text)).
Proof.
  intros H; unfold renderRun; rewrite H.
  eexists; split; [reflexivity|].
  destruct text as [c l [b i s u cd col]].
  unfold wrappers, renderer_nesting; simpl.
  destruct (truthy b), (truthy i), (truthy s), (truthy u), (truthy cd);
    reflexivity.
Qed.

Lemma nth_error_mapi_from {A B : Type} (f : nat -> A -> B) (l : list A) :
  forall k i x,
    nth_error l i = Some x ->
    nth_error (mapi_from f k l) i = Some (f (k + i) x).
Proof.
  induction l as [|y rest IH]; intros k i x H.
  - destruct i; discriminate.
  - destruct i as [|i]; simpl in *.
    + injection H as <-; rewrite Nat.add_0_r; reflexivity.
    + rewrite (IH (S k) i x H); f_equal; f_equal; lia.
Qed.

(** C1: the renderer nests the style wrappers of a span in the order bold,
    italic, strikethrough, underline, inline code from innermost to
    outermost: the italic wrapper wraps the bold one, strikethrough wraps
    italic, underline wraps strikethrough and inline code is the outermost
    style wrapper; when the span has a link, the whole styled result is
    wrapped in a hyperlink to it. *)
Theorem RichTextRenderer_nesting_order
    (spans : list ParsedRichText) (index : nat) (text : ParsedRichText) :
  nth_error spans index = Some text ->
  exists node,
    nth_error (fragment_children (RichTextRenderer spans)) index = Some node /\
    wrapper_chain node = "span" :: wrappers (renderer_nesting text) /\
    innermost node = Child (content text) /\
    (truthy (link text) = true ->
     exists styled,
       node = Element "span" [("key", VNum (Z.of_nat index))]
                [Element "a" (link_props (link text)) [styled]] /\
       wrapper_chain styled = wrappers (tl (renderer_nesting text))).
Proof.
  intros H; exists (renderRun index text).
  split; [|split; [|split]].
  - simpl; rewrite (nth_error_mapi_from renderRun spans 0 index text H).
    reflexivity.
  - apply renderRun_chain.
  - apply renderRun_chain.
  - apply renderRun_link.
Qed.

Lemma RichTextRenderer_nesting_order_witness :
  exists node,
    nth_error
      (fragment_children
         (RichTextRenderer
            [styled_span true true true true true (VStr "https://example.com")]))
      0 = Some node /\
    wrapper_chain node = ["span"; "a"; "code"; "u"; "s"; "em"; "strong"].
Proof.
  destruct (RichTextRenderer_nesting_order
              [styled_span true true true true true (VStr "https://example.com")]
              0 _ eq_refl)
    as (node & Hnth & Hchain & _).
  exists node; split; [exact Hnth | exact Hchain].
Defined.

(** C1, as stated, fails: for a bold and italic span the italic element
    wraps the bold one, not the reverse. *)
Lemma RichTextRenderer_italic_wraps_bold :
  RichTextRenderer [bold_italic]
    = Fragment
        [Element "span" [("key", VNum 0)]
           [Element "em" []
              [Element "strong" [] [Child (VStr "Bold and Italic")]]]] /\
  ~ (forall text index,
       wrapper_chain (renderRun index text)
         = "span" :: wrappers (specified_nesting text)).
Proof.
  split; [reflexivity|].
  intros H; specialize (H bold_italic 0%nat); discriminate H.
Qed.

(** ** The block tree fetcher *)

Lemma childless_leaf (node : BlockWithMetadata) :
  children node = [] -> leaf_unless_expanded node.
Proof.
  intros H; split; [auto | congruence].
Qed.

Lemma expanded_leaf (node : BlockWithMetadata) :
  expands (block node) = true -> leaf_unless_expanded node.
Proof.
  unfold expands; intros H; apply andb_true_iff in H as [Hc Hf].
  split; [congruence | auto].
Qed.

Lemma parseBlocks_loop_childless (blocks : list value) :
  forall acc nodes,
    Forall (fun n => children n = []) acc ->
    parseBlocks_loop acc blocks = Ok nodes ->
    Forall (fun n => children n = []) nodes.
Proof.
  induction blocks as [|b rest IH]; simpl; intros acc nodes Hacc H.
  - injection H as <-; exact Hacc.
  - apply bind_Ok in H as (r & _ & H).
    destruct r as [parsed|]; [|eauto].
    apply bind_Ok in H as (block_id & _ & H).
    eapply IH; [|exact H].
    apply Forall_app; split; [exact Hacc|].
    repeat constructor.
Qed.

Lemma parseBlocks_childless (blocks : list value) (nodes : list BlockWithMetadata) :
  parseBlocks blocks = Ok nodes -> Forall (fun n => children n = []) nodes.
Proof.
  apply parseBlocks_loop_childless; constructor.
Qed.

Section FetcherProperties.

Variable World : Type.
Variable list_children : value -> World -> result (list value) * World.

Local Notation "'fetch'" := (fetchBlocksRecursively list_children).

Lemma expand_children_invariant
    (f : value -> World -> run World (list BlockWithMetadata)) :
  (forall blockId w kids w',
     f blockId w = Some (Ok kids, w') ->
     Forall leaf_unless_expanded (flat_map nodes_of kids)) ->
  forall stubs w blocks w',
    Forall (fun n => children n = []) stubs ->
    expand_children f stubs w = Some (Ok blocks, w') ->
    Forall leaf_unless_expanded (flat_map nodes_of blocks).
Proof.
  intros Hf; induction stubs as [|b rest IH]; simpl; intros w blocks w' Hs H.
  - injection H as <- _; constructor.
  - apply Forall_cons_iff in Hs as [Hb Hrest].
    destruct (expands (block b)) eqn:Hexp.
    + destruct (f (id b) w) as [[[kids|e] w1]|] eqn:Hkids; try discriminate.
      destruct (expand_children f rest w1) as [[[rest'|e] w2]|] eqn:Hr; try discriminate.
      injection H as <- <-; simpl.
      constructor; [apply expanded_leaf; exact Hexp|].
      apply Forall_app; split; eauto.
    + destruct (expand_children f rest w) as [[[rest'|e] w2]|] eqn:Hr; try discriminate.
      injection H as <- <-.
      destruct b as [bid bb bkids]; simpl in *; subst bkids; simpl.
      constructor; [apply childless_leaf; reflexivity|]; eauto.
Qed.

Lemma fetch_invariant (fuel : nat) :
  forall blockId w blocks w',
    fetch fuel blockId w = Some (Ok blocks, w') ->
    Forall leaf_unless_expanded (flat_map nodes_of blocks).
Proof.
  induction fuel as [|fuel IH]; simpl; intros blockId w blocks w' H;
    [discriminate|].
  destruct (list_children blockId w) as [[results|e] w1]; [|discriminate].
  destruct (parseBlocks results) as [stubs|e] eqn:Hparse; [|discriminate].
  eapply expand_children_invariant; [exact IH | | exact H].
  eapply parseBlocks_childless; exact Hparse.
Qed.

(** C3: in every tree the fetcher returns, from [fetchBlocksRecursively]
    or through [getPageBlocks], a node at any depth whose variant is not
    Paragraph, ListItem, Toggle or ToDo has no children, whatever
    [has_children] said in its record; and a node that has children is of
    one of these variants with a truthy children flag. *)
Theorem fetch_leaf_variants_have_no_children
    (fuel : nat) (blockId : value) (w w' : World)
    (blocks : list BlockWithMetadata) (node : BlockWithMetadata) :
  fetch fuel blockId w = Some (Ok blocks, w') \/
  getPageBlocks list_children fuel blockId w = Some (Ok blocks, w') ->
  In node (flat_map nodes_of blocks) ->
  (children_capable (block node) = false -> children node = []) /\
  (children node <> [] ->
   children_capable (block node) = true /\
   truthy (hasChildren_of (block node)) = true).
Proof.
  intros H Hin.
  assert (Hall : Forall leaf_unless_expanded (flat_map nodes_of blocks)).
  { destruct H as [H|H]; [exact (fetch_invariant _ _ _ _ _ H)|].
    unfold getPageBlocks in H.
    destruct (fetch fuel blockId w) as [[[fetched|e] w1]|] eqn:Hrun;
      try discriminate; injection H as <- _.
    - exact (fetch_invariant _ _ _ _ _ Hrun).
    - constructor. }
  rewrite Forall_forall in Hall; exact (Hall node Hin).
Qed.

End FetcherProperties.

Lemma fetch_leaf_variants_have_no_children_witness :
  exists heading paragraph,
    fetchBlocksRecursively sample_service 3 (VStr "page") tt
      = Some (Ok [heading; paragraph], tt) /\
    id heading = VStr "h1" /\ children heading = [] /\
    id paragraph = VStr "p1" /\ length (children paragraph) = 1.
Proof.
  destruct (fetchBlocksRecursively sample_service 3 (VStr "page") tt)
    as [[[[|heading [|paragraph [|]]]|] []]|] eqn:Hrun;
    try (vm_compute in Hrun; discriminate Hrun).
  exists heading, paragraph.
  split; [reflexivity|].
  assert (Hin : In heading (flat_map nodes_of [heading; paragraph]))
    by (destruct heading; left; reflexivity).
  pose proof (fetch_leaf_variants_have_no_children _ sample_service 3
                (VStr "page") tt tt _ heading (or_introl Hrun) Hin)
    as [Hleaf _].
  vm_compute in Hrun.
  injection Hrun as Hh Hp; subst heading paragraph.
  split; [reflexivity|].
  split; [exact (Hleaf eq_refl)|].
  split; reflexivity.
Defined.

Section FetcherFailure.

Variable World : Type.
Variable list_children : value -> World -> result (list value) * World.

Local Notation "'fetch'" := (fetchBlocksRecursively list_children).

(** More budget does not change the outcome of a run that ended. *)
Lemma expand_children_mono
    (f g : value -> World -> run World (list BlockWithMetadata)) :
  (forall blockId w r, f blockId w = Some r -> g blockId w = Some r) ->
  forall blocks w r,
    expand_children f blocks w = Some r -> expand_children g blocks w = Some r.
Proof.
  intros Hfg; induction blocks as [|b rest IH]; simpl; intros w r H; [exact H|].
  destruct (expands (block b)).
  - destruct (f (id b) w) as [[[kids|e] w1]|] eqn:Hf; try discriminate;
      rewrite (Hfg _ _ _ Hf); [|exact H].
    destruct (expand_children f rest w1) as [r1|] eqn:Hr; [|discriminate].
    rewrite (IH _ _ Hr); exact H.
  - destruct (expand_children f rest w) as [r1|] eqn:Hr; [|discriminate].
    rewrite (IH _ _ Hr); exact H.
Qed.

Lemma fetch_mono (fuel : nat) :
  forall more blockId w r,
    fetch fuel blockId w = Some r -> fetch (fuel + more) blockId w = Some r.
Proof.
  induction fuel as [|fuel IH]; simpl; intros more blockId w r H;
    [discriminate|].
  destruct (list_children blockId w) as [[results|e] w1]; [|exact H].
  destruct (parseBlocks results) as [stubs|e]; [|exact H].
  eapply expand_children_mono; [|exact H].
  intros; apply IH; assumption.
Qed.

Lemma fetch_mono_le (fuel fuel' : nat) (blockId : value) (w : World)
    (r : result (list BlockWithMetadata) * World) :
  fuel <= fuel' ->
  fetch fuel blockId w = Some r -> fetch fuel' blockId w = Some r.
Proof.
  intros Hle H.
  replace fuel' with (fuel + (fuel' - fuel)) by lia.
  apply fetch_mono; exact H.
Qed.

Lemma expand_children_failure
    (f : value -> World -> run World (list BlockWithMetadata))
    (before : list BlockWithMetadata) :
  forall w before' w2 b after e w3,
    expand_children f before w = Some (Ok before', w2) ->
    expands (block b) = true ->
    f (id b) w2 = Some (Throw e, w3) ->
    expand_children f (before ++ b :: after) w = Some (Throw e, w3).
Proof.
  induction before as [|x rest IH]; simpl; intros w before' w2 b after e w3 H Hb Hf.
  - injection H as _ <-; rewrite Hb, Hf; reflexivity.
  - destruct (expands (block x)).
    + destruct (f (id x) w) as [[[kids|e1] w1]|]; try discriminate.
      destruct (expand_children f rest w1) as [[[rest'|e1] w1']|] eqn:Hr;
        try discriminate.
      injection H as _ <-.
      rewrite (IH _ _ _ _ after _ _ Hr Hb Hf); reflexivity.
    + destruct (expand_children f rest w) as [[[rest'|e1] w1']|] eqn:Hr;
        try discriminate.
      injection H as _ <-.
      rewrite (IH _ _ _ _ after _ _ Hr Hb Hf); reflexivity.
Qed.

Lemma api_failure_propagates (depth : nat) (blockId : value) (w : World)
    (e : error) (w' : World) :
  api_fails_at list_children depth blockId w e w' ->
  exists fuel0, forall fuel,
    fuel0 <= fuel -> fetch fuel blockId w = Some (Throw e, w').
Proof.
  induction 1 as [blockId w e w1 Hcall
                 |depth blockId w results w1 before b after fuel1 before' w2 e w3
                    Hcall Hparse Hbefore Hb _ [fuel2 IH]].
  - exists 1; intros [|fuel] Hle; [lia|]; simpl.
    rewrite Hcall; reflexivity.
  - exists (S (fuel1 + fuel2)); intros [|fuel] Hle; [lia|]; simpl.
    rewrite Hcall, Hparse.
    eapply expand_children_failure; [|exact Hb|apply IH; lia].
    eapply expand_children_mono; [|exact Hbefore].
    intros ? ? ? Hf; eapply fetch_mono_le; [|exact Hf]; lia.
Qed.

(** C8: when a call to the service fails at any recursion level of a block
    tree fetch, [getPageBlocks] returns the empty sequence, for every
    recursion budget that lets the fetch reach the call; and no run of
    [getPageBlocks] ends with an exception. *)
Theorem getPageBlocks_catches_api_failure
    (depth : nat) (pageId : value) (w : World) (e : error) (w' : World) :
  api_fails_at list_children depth pageId w e w' ->
  (exists fuel0, forall fuel,
     fuel0 <= fuel ->
     getPageBlocks list_children fuel pageId w = Some (Ok [], w')) /\
  (forall fuel anyId w0 r w1,
     getPageBlocks list_children fuel anyId w0 = Some (r, w1) ->
     exists blocks, r = Ok blocks).
Proof.
  intros H; split.
  - destruct (api_failure_propagates _ _ _ _ _ H) as [fuel0 Hfuel].
    exists fuel0; intros fuel Hle; unfold getPageBlocks.
    rewrite (Hfuel fuel Hle); reflexivity.
  - intros fuel anyId w0 r w1; unfold getPageBlocks.
    destruct (fetch fuel anyId w0) as [[[blocks|e0] w2]|]; try discriminate;
      intros Hr; injection Hr as <- _; eauto.
Qed.

End FetcherFailure.

Lemma getPageBlocks_catches_api_failure_witness :
  api_fails_at failing_service 1 (VStr "page") 0 (ApiError "rate limited") 2 /\
  getPageBlocks failing_service 2 (VStr "page") 0 = Some (Ok [], 2).
Proof.
  assert (H : api_fails_at failing_service 1 (VStr "page") 0
                (ApiError "rate limited") 2).
  { eapply (fails_below nat failing_service 0 (VStr "page") 0 _ 1 [_] _ _ 1
              _ 1).
    - reflexivity.
    - vm_compute; reflexivity.
    - vm_compute; reflexivity.
    - reflexivity.
    - apply fails_here; reflexivity. }
  split; [exact H|].
  destruct (getPageBlocks_catches_api_failure _ _ _ _ _ _ _ H) as [[fuel0 Hfuel] _].
  destruct (Nat.le_gt_cases fuel0 2) as [Hle|Hgt].
  - apply Hfuel; exact Hle.
  - reflexivity.
Defined.

(** ** Post metadata *)

Lemma get_prop_error (v : value) (k : string) (e : error) :
  get_prop v k = Throw e -> e = TypeError.
Proof.
  destruct v; simpl; intros H; try discriminate; injection H as <-; reflexivity.
Qed.

Lemma mapM_get_prop_error (k : string) (items : list value) (e : error) :
  mapM (fun item => get_prop item k) items = Throw e -> e = TypeError.
Proof.
  induction items as [|x rest IH]; simpl; [discriminate|].
  destruct (get_prop x k) as [v|e1] eqn:Hx; simpl.
  - destruct (mapM _ rest) as [vs|e2]; simpl; [discriminate|].
    intros H; injection H as <-; apply IH; reflexivity.
  - intros H; injection H as <-; eapply get_prop_error; exact Hx.
Qed.

Lemma getCategories_error (prop : value) (e : error) :
  NotionParser.getCategories prop = Throw e -> e = TypeError.
Proof.
  unfold NotionParser.getCategories.
  destruct (nullish (opt_prop prop "multi_select")); [discriminate|].
  destruct (opt_prop prop "multi_select");
    try (intros H; injection H as <-; reflexivity).
  destruct (mapM _ elems) as [names|e1] eqn:Hm; simpl; [discriminate|].
  intros H; injection H as <-; eapply mapM_get_prop_error; exact Hm.
Qed.

Lemma getCover_missing_subobject (page cover : value) :
  get_prop page "cover" = Ok cover ->
  truthy cover = true ->
  cover_subobject_missing cover = true ->
  NotionParser.getCover page = Throw TypeError.
Proof.
  intros Hcover Htruthy Hmissing.
  unfold NotionParser.getCover; rewrite Hcover; cbn [bind].
  rewrite Htruthy; cbn [negb].
  rewrite (get_prop_defined _ _ (truthy_not_nullish _ Htruthy)); cbn [bind].
  unfold cover_subobject_missing in Hmissing.
  destruct (is_str (opt_prop cover "type") "file");
    rewrite (get_prop_defined _ _ (truthy_not_nullish _ Htruthy)); cbn [bind];
    apply get_prop_nullish; exact Hmissing.
Qed.

(** C10: the construction of a post is not total over malformed covers.
    For a page whose cover is truthy while the sub-object matching its type
    is missing ([file] for type ["file"], [external] for any other type),
    cover extraction raises a [TypeError], and so does the construction of
    the post; a truthy cover with its sub-object gives the URL of that
    sub-object; and the [null] thumbnail is what a page gets exactly when
    its cover is falsy: absent, [null], or a falsy primitive. *)
Theorem getCover_throws_without_subobject (page cover : value) :
  get_prop page "cover" = Ok cover ->
  (truthy cover = true -> cover_subobject_missing cover = true ->
   NotionParser.getCover page = Throw TypeError /\
   NotionParser.new page = Throw TypeError) /\
  (truthy cover = true -> cover_subobject_missing cover = false ->
   NotionParser.getCover page = Ok (opt_prop (cover_subobject cover) "url")) /\
  (truthy cover = false -> NotionParser.getCover page = Ok VNull).
Proof.
  intros Hcover.
  split; [|split].
  - intros Htruthy Hmissing.
    pose proof (getCover_missing_subobject _ _ Hcover Htruthy Hmissing)
      as Hthrow.
    split; [exact Hthrow|].
    assert (Hpage : nullish page = false)
      by (destruct page; simpl in *; try discriminate; reflexivity).
    unfold NotionParser.new.
    rewrite !(get_prop_defined _ _ Hpage); cbn [bind].
    destruct (nullish (opt_prop page "properties")) eqn:Hprops.
    + rewrite (get_prop_nullish _ _ Hprops); reflexivity.
    + rewrite !(get_prop_defined _ _ Hprops); cbn [bind].
      destruct (NotionParser.getCategories _) as [cats|e] eqn:Hcats; cbn [bind].
      * rewrite Hthrow; reflexivity.
      * rewrite (getCategories_error _ _ Hcats); reflexivity.
  - intros Htruthy Hpresent.
    unfold NotionParser.getCover; rewrite Hcover; cbn [bind].
    rewrite Htruthy; cbn [negb].
    rewrite (get_prop_defined _ _ (truthy_not_nullish _ Htruthy)); cbn [bind].
    unfold cover_subobject_missing in Hpresent; unfold cover_subobject.
    destruct (is_str (opt_prop cover "type") "file");
      rewrite (get_prop_defined _ _ (truthy_not_nullish _ Htruthy));
      cbn [bind]; apply get_prop_defined; exact Hpresent.
  - intros Hfalsy.
    unfold NotionParser.getCover; rewrite Hcover; cbn [bind].
    rewrite Hfalsy; reflexivity.
Qed.

Lemma getCover_throws_without_subobject_witness :
  (NotionParser.getCover page_with_broken_cover = Throw TypeError /\
   NotionParser.new page_with_broken_cover = Throw TypeError) /\
  NotionParser.getCover sample_page = Ok (VStr "https://example.com/c.png") /\
  NotionParser.getCover page_with_empty_cover = Ok VNull.
Proof.
  split; [|split].
  - apply (getCover_throws_without_subobject page_with_broken_cover
             (VObj [("type", VStr "file")]) eq_refl); reflexivity.
  - apply (getCover_throws_without_subobject sample_page _ eq_refl);
      reflexivity.
  - apply (getCover_throws_without_subobject page_with_empty_cover
             (VStr "") eq_refl); reflexivity.
Defined.

(** C10, as stated, fails: a cover that is present but falsy, here the
    empty string, has no [external] object, and cover extraction returns
    [null] instead of raising. *)
Lemma getCover_null_for_empty_string_cover :
  nullish (VStr "") = false /\
  cover_subobject_missing (VStr "") = true /\
  NotionParser.getCover page_with_empty_cover = Ok VNull /\
  ~ (forall page cover,
       get_prop page "cover" = Ok cover ->
       nullish cover = false ->
       cover_subobject_missing cover = true ->
       NotionParser.getCover page = Throw TypeError).
Proof.
  repeat split.
  intros H.
  specialize (H page_with_empty_cover (VStr "") eq_refl eq_refl eq_refl).
  discriminate H.
Qed.

(** * Further properties *)

(** ** The normalizer of rich text *)

Lemma or_else_truthy_or (a default : value) : truthy_or default (a ||| default).
Proof.
  unfold truthy_or, or_else; destruct (truthy a) eqn:E; auto.
Qed.

Lemma truthy_or_else (a default : value) :
  truthy default = false -> truthy (a ||| default) = truthy a.
Proof.
  unfold or_else; destruct (truthy a) eqn:E; auto.
Qed.

Lemma parseRun_normalized (rt : value) (span : ParsedRichText) :
  parseRun rt = Ok span -> normalized_span span.
Proof.
  unfold parseRun; intros H.
  repeat (apply bind_Ok in H as (? & _ & H)).
  injection H as <-; unfold normalized_span; simpl.
  repeat split; try apply or_else_truthy_or.
  unfold or_else; destruct (truthy (opt_prop _ "color")) eqn:E; auto.
Qed.

(** X1: every span the normalizer returns is normalized: its link is unset
    or truthy, its content is truthy or the empty string, each flag is
    truthy or [false], and its color is truthy; no field holds [null],
    [0] or a stray empty string. *)
Theorem parseRichText_spans_normalized
    (richTextArray : value) (spans : list ParsedRichText) :
  parseRichText richTextArray = Ok spans -> Forall normalized_span spans.
Proof.
  destruct richTextArray; simpl; intros H;
    try (injection H as <-; constructor).
  apply mapM_Ok_Forall2 in H.
  induction H as [|rt span runs spans' Hrun _ IH]; constructor; auto.
  eapply parseRun_normalized; exact Hrun.
Qed.

Lemma parseRichText_spans_normalized_witness :
  exists span,
    parseRichText
      (VArr [VObj [("plain_text", VNull);
                   ("text", VObj [("link", VObj [("url", VStr "")])]);
                   ("annotations", VObj [("bold", VNum 0)])]])
      = Ok [span] /\
    content span = VStr "" /\ link span = VUndefined /\
    bold (annotations span) = VBool false.
Proof.
  eexists; split; [reflexivity|].
  pose proof (parseRichText_spans_normalized _ _
                (eq_refl : parseRichText
                  (VArr [VObj [("plain_text", VNull);
                               ("text", VObj [("link", VObj [("url", VStr "")])]);
                               ("annotations", VObj [("bold", VNum 0)])]])
                  = Ok [_])) as Hall.
  apply Forall_inv in Hall.
  destruct Hall as ([Hc|Hc] & [Hl|Hl] & [Hb|Hb] & _);
    try discriminate; repeat split; assumption.
Defined.

(** X2: normalizing the concatenation of two arrays of runs is normalizing
    each and concatenating the spans; it raises when either part does. *)
Theorem parseRichText_app (runs1 runs2 : list value) :
  parseRichText (VArr (runs1 ++ runs2))
  = (spans1 <- parseRichText (VArr runs1) ;;
     spans2 <- parseRichText (VArr runs2) ;;
     Ok (spans1 ++ spans2)%list).
Proof.
  simpl; induction runs1 as [|rt rest IH]; simpl.
  - destruct (mapM parseRun runs2); reflexivity.
  - destruct (parseRun rt) as [span|e]; simpl; [|reflexivity].
    rewrite IH.
    destruct (mapM parseRun rest) as [spans|e]; simpl; [|reflexivity].
    destruct (mapM parseRun runs2); reflexivity.
Qed.

(** ** Exceptions of the parser *)

Lemma value_nested_ind (P : value -> Prop) :
  P VUndefined -> P VNull ->
  (forall b, P (VBool b)) -> (forall n, P (VNum n)) -> (forall s, P (VStr s)) ->
  (forall elems, Forall P elems -> P (VArr elems)) ->
  (forall fields, Forall (fun kv => P (snd kv)) fields -> P (VObj fields)) ->
  forall v, P v.
Proof.
  intros Hu Hn Hb Hz Hs Ha Ho.
  fix IH 1; intros [| |b|n|s|elems|fields];
    [exact Hu | exact Hn | apply Hb | apply Hz | apply Hs | | ].
  - apply Ha.
    induction elems as [|x rest IHl]; constructor; [apply IH | exact IHl].
  - apply Ho.
    induction fields as [|[k x] rest IHl]; constructor; [apply IH | exact IHl].
Qed.

Create HintDb type_errors.

Lemma only_TypeError_bind {A B : Type} (r : result A) (k : A -> result B) :
  only_TypeError r -> (forall a, only_TypeError (k a)) ->
  only_TypeError (bind r k).
Proof.
  destruct r as [a|e]; simpl; auto.
Qed.

Lemma only_TypeError_get_prop (v : value) (k : string) :
  only_TypeError (get_prop v k).
Proof.
  destruct v; simpl; auto.
Qed.

Lemma only_TypeError_mapM {A B : Type} (f : A -> result B) (l : list A) :
  (forall x, only_TypeError (f x)) -> only_TypeError (mapM f l).
Proof.
  intros Hf; induction l as [|x rest IH]; simpl; [exact I|].
  apply only_TypeError_bind; [apply Hf|]; intros y.
  apply only_TypeError_bind; [exact IH|]; intros ys; exact I.
Qed.

Lemma only_TypeError_to_string (v : value) : only_TypeError (to_string v).
Proof.
  induction v as [| |b|n|s|elems IH|fields _] using value_nested_ind;
    simpl; auto.
  - destruct b; exact I.
  - induction IH as [|x rest Hx _ IHrest]; [exact I|].
    apply only_TypeError_bind.
    + destruct (nullish x); [exact I | exact Hx].
    + intros s; destruct rest; [exact I|].
      apply only_TypeError_bind; [exact IHrest|]; intros r; exact I.
  - destruct (has_key "toString" fields); simpl; auto.
Qed.

Lemma only_TypeError_join_empty (elems : list value) :
  only_TypeError (join_empty elems).
Proof.
  induction elems as [|x rest IH]; simpl; [exact I|].
  apply only_TypeError_bind.
  - destruct (nullish x); [exact I | apply only_TypeError_to_string].
  - intros s; apply only_TypeError_bind; [exact IH|]; intros r; exact I.
Qed.

Lemma only_TypeError_parseRichText (v : value) :
  only_TypeError (parseRichText v).
Proof.
  destruct v; simpl; auto.
  apply only_TypeError_mapM; intros rt; unfold parseRun.
  repeat (apply only_TypeError_bind; [apply only_TypeError_get_prop|]; intros ?).
  exact I.
Qed.

#[local] Hint Resolve only_TypeError_get_prop only_TypeError_parseRichText
  only_TypeError_join_empty only_TypeError_mapM : type_errors.

(** Walks through the binds and branches of a parser function. *)
Ltac type_errors :=
  repeat first
    [ exact I
    | reflexivity
    | solve [auto with type_errors]
    | apply only_TypeError_bind; [|intros ?]
    | match goal with
      | |- only_TypeError (if ?c then _ else _) => destruct c
      | |- only_TypeError (match ?x with _ => _ end) => destruct x
      end ].

Lemma only_TypeError_parseBlock (block : value) :
  only_TypeError (parseBlock block).
Proof.
  unfold parseBlock, some, parseParagraph, parseHeading, parseListItem,
    parseQuote, parseCode, parseCallout, parseDivider, parseImage, image_url,
    parseBookmark, parseToggle, parseToDo.
  type_errors.
Qed.

Lemma only_TypeError_parseBlocks_loop (blocks : list value) :
  forall acc, only_TypeError (parseBlocks_loop acc blocks).
Proof.
  induction blocks as [|b rest IH]; intros acc; simpl; [exact I|].
  apply only_TypeError_bind; [apply only_TypeError_parseBlock|].
  intros [parsed|]; [|apply IH].
  apply only_TypeError_bind; [apply only_TypeError_get_prop|].
  intros block_id; apply IH.
Qed.

Lemma parseBlocks_loop_acc (blocks : list value) :
  forall acc,
    parseBlocks_loop acc blocks
    = (nodes <- parseBlocks_loop [] blocks ;; Ok (acc ++ nodes)%list).
Proof.
  induction blocks as [|b rest IH]; intros acc; simpl.
  - rewrite app_nil_r; reflexivity.
  - destruct (parseBlock b) as [[parsed|]|e]; simpl; [| |reflexivity].
    + destruct (get_prop b "id") as [block_id|e]; simpl; [|reflexivity].
      rewrite (IH (acc ++ _)%list), (IH [_]).
      destruct (parseBlocks_loop [] rest); simpl; [|reflexivity].
      rewrite <- app_assoc; reflexivity.
    + apply IH.
Qed.

Lemma parseBlocks_cons (b : value) (rest : list value) :
  parseBlocks (b :: rest)
  = (parsedBlock <- parseBlock b ;;
     match parsedBlock with
     | Some parsed =>
         block_id <- get_prop b "id" ;;
         nodes <- parseBlocks rest ;;
         Ok ({| id := block_id; block := parsed; children := [] |} :: nodes)
     | None => parseBlocks rest
     end).
Proof.
  unfold parseBlocks; simpl.
  destruct (parseBlock b) as [[parsed|]|e]; simpl; try reflexivity.
  destruct (get_prop b "id") as [block_id|e]; simpl; [|reflexivity].
  rewrite parseBlocks_loop_acc; reflexivity.
Qed.

Lemma parseBlocks_nullish_record (before after : list value) (x : value) :
  nullish x = true -> parseBlocks (before ++ x :: after) = Throw TypeError.
Proof.
  intros Hx; induction before as [|b rest IH]; simpl app.
  - rewrite parseBlocks_cons.
    unfold parseBlock; rewrite (get_prop_nullish _ _ Hx); reflexivity.
  - rewrite parseBlocks_cons.
    pose proof (only_TypeError_parseBlock b) as Hb.
    destruct (parseBlock b) as [[parsed|]|e]; simpl in *;
      [| exact IH | subst; reflexivity].
    pose proof (only_TypeError_get_prop b "id") as Hid.
    destruct (get_prop b "id") as [block_id|e]; simpl in *;
      [rewrite IH | subst]; reflexivity.
Qed.

(** X3: a [null] or [undefined] record anywhere in a batch makes
    [parseBlocks] raise a [TypeError]: no node is returned, not even for
    the well-formed records before it. *)
Theorem parseBlocks_raises_on_nullish_record
    (before after : list value) (x : value) :
  nullish x = true ->
  parseBlock x = Throw TypeError /\
  parseBlocks (before ++ x :: after) = Throw TypeError.
Proof.
  intros Hx; split.
  - unfold parseBlock; rewrite (get_prop_nullish _ _ Hx); reflexivity.
  - apply parseBlocks_nullish_record; exact Hx.
Qed.

Lemma parseBlocks_raises_on_nullish_record_witness :
  parseBlocks (sample_batch ++ VNull :: sample_batch) = Throw TypeError.
Proof.
  apply (parseBlocks_raises_on_nullish_record sample_batch sample_batch VNull).
  reflexivity.
Defined.

(** X4: batch parsing distributes over concatenation: the nodes of two
    batches parsed together are the nodes of the first followed by the
    nodes of the second, and the whole raises when either batch does. *)
Theorem parseBlocks_app (blocks1 blocks2 : list value) :
  parseBlocks (blocks1 ++ blocks2)
  = (nodes1 <- parseBlocks blocks1 ;;
     nodes2 <- parseBlocks blocks2 ;;
     Ok (nodes1 ++ nodes2)%list).
Proof.
  induction blocks1 as [|b rest IH]; simpl app.
  - change (parseBlocks []) with (@Ok (list BlockWithMetadata) []); simpl.
    destruct (parseBlocks blocks2); reflexivity.
  - rewrite !parseBlocks_cons, IH.
    destruct (parseBlock b) as [[parsed|]|e]; simpl; try reflexivity.
    destruct (get_prop b "id") as [block_id|e]; simpl; [|reflexivity].
    destruct (parseBlocks rest) as [nodes|e]; simpl; [|reflexivity].
    destruct (parseBlocks blocks2); reflexivity.
Qed.

(** ** Dispatch of the block parser *)

Lemma get_prop_Ok (v : value) (k : string) (x : value) :
  get_prop v k = Ok x -> nullish v = false /\ x = opt_prop v k.
Proof.
  destruct v; simpl; intros H; try discriminate; injection H as <-; auto.
Qed.

(** Opens a hypothesis [f block = Ok parsed] of a parser function into the
    parts its binds returned. *)
Ltac open_parse H :=
  unfold some, parseParagraph, parseHeading, parseListItem, parseQuote,
    parseCode, parseCallout, parseDivider, parseBookmark, parseToggle,
    parseToDo in H;
  repeat match goal with
         | H' : bind _ _ = Ok _ |- _ => apply bind_Ok in H' as (? & ? & ?)
         | H' : Ok _ = Ok _ |- _ => injection H' as <-
         end.

(** One arm of the [switch], for a hypothesis on [parseBlock]. *)
Ltac switch_arm H type name :=
  let E := fresh "E" in
  destruct (is_str type name) eqn:E;
  [apply is_str_eq in E; subst type | clear E].

Lemma parseImage_Some (block : value) (b : ParsedBlock) :
  parseImage block = Ok (Some b) -> exists url caption, b = ImageBlock url caption.
Proof.
  unfold parseImage; intros H.
  apply bind_Ok in H as (imageData & _ & H).
  destruct (negb (truthy imageData)); [discriminate|].
  apply bind_Ok in H as (url & _ & H).
  destruct (negb (truthy url)); [discriminate|].
  apply bind_Ok in H as (caption_raw & _ & H).
  apply bind_Ok in H as (caption & _ & H).
  injection H as <-; eauto.
Qed.

(** X5: the parsed block has the variant of the record's [type]: whenever
    [parseBlock] yields a block, the record's [type] is the string that
    names the block's variant. *)
Theorem parseBlock_keeps_type (block : value) (b : ParsedBlock) :
  parseBlock block = Ok (Some b) ->
  opt_prop block "type" = VStr (ParsedBlock_type b).
Proof.
  unfold parseBlock; intros H.
  apply bind_Ok in H as (type & Htype & H).
  apply get_prop_Ok in Htype as [_ ->].
  remember (opt_prop block "type") as type eqn:Ht; clear Ht.
  switch_arm H type "paragraph"; [open_parse H; reflexivity|].
  switch_arm H type "heading_1"; [open_parse H; reflexivity|].
  switch_arm H type "heading_2"; [open_parse H; reflexivity|].
  switch_arm H type "heading_3"; [open_parse H; reflexivity|].
  switch_arm H type "bulleted_list_item"; [open_parse H; reflexivity|].
  switch_arm H type "numbered_list_item"; [open_parse H; reflexivity|].
  switch_arm H type "quote"; [open_parse H; reflexivity|].
  switch_arm H type "code"; [open_parse H; reflexivity|].
  switch_arm H type "callout"; [open_parse H; reflexivity|].
  switch_arm H type "divider"; [open_parse H; reflexivity|].
  switch_arm H type "image".
  { apply parseImage_Some in H as (url & caption & ->); reflexivity. }
  switch_arm H type "bookmark"; [open_parse H; reflexivity|].
  switch_arm H type "toggle"; [open_parse H; reflexivity|].
  switch_arm H type "to_do"; [open_parse H; reflexivity|].
  discriminate H.
Qed.

Lemma parseBlock_keeps_type_witness :
  exists b,
    parseBlock (flagged "h1" "heading_1") = Ok (Some b) /\
    opt_prop (flagged "h1" "heading_1") "type" = VStr (ParsedBlock_type b).
Proof.
  eexists; split; [reflexivity|].
  apply (parseBlock_keeps_type (flagged "h1" "heading_1")); reflexivity.
Defined.

Lemma some_not_None {A : Type} (r : result A) : some r <> Ok None.
Proof.
  destruct r; simpl; discriminate.
Qed.

Lemma parseImage_None_iff (block : value) :
  nullish block = false ->
  (parseImage block = Ok None <-> usable_url block = None).
Proof.
  intros Hblock; unfold parseImage, usable_url.
  rewrite (get_prop_defined _ _ Hblock); simpl.
  destruct (truthy (opt_prop block "image")) eqn:Himg; simpl; [|tauto].
  rewrite (image_url_defined _ Himg); simpl.
  match goal with |- context [truthy ?u] => destruct (truthy u) end;
    simpl; [|tauto].
  rewrite (get_prop_defined _ _ (truthy_not_nullish _ Himg)); simpl.
  split; [|discriminate].
  destruct (parseRichText _); simpl; discriminate.
Qed.

(** Evaluates the comparisons of two string literals in [H]. *)
Ltac decide_arms H :=
  repeat match type of H with
         | context [is_str (VStr ?a) ?b] =>
             let v := eval vm_compute in (is_str (VStr a) b) in
             change (is_str (VStr a) b) with v in H
         end;
  cbv iota in H.

Ltac decide_goal_arms :=
  repeat match goal with
         | |- context [is_str (VStr ?a) ?b] =>
             let v := eval vm_compute in (is_str (VStr a) b) in
             change (is_str (VStr a) b) with v
         end;
  cbv iota.

(** X6: the parser gives no result for a record exactly when the record's
    type is not one of the fourteen it knows, or the record is an image
    without a usable URL; every other record yields a block or raises. *)
Theorem parseBlock_no_result_iff (block : value) :
  nullish block = false ->
  (parseBlock block = Ok None <->
   recognized (opt_prop block "type") = false \/
   (is_str (opt_prop block "type") "image" = true /\ usable_url block = None)).
Proof.
  intros Hblock; split.
  - intros H.
    destruct (recognized (opt_prop block "type")) eqn:R; [|left; reflexivity].
    right.
    unfold parseBlock in H; rewrite (get_prop_defined _ _ Hblock) in H.
    cbn [bind] in H.
    unfold recognized, recognized_types in R; cbn [existsb] in R.
    repeat (apply orb_true_iff in R as [R|R]); try discriminate R;
      apply is_str_eq in R; rewrite R in H |- *; decide_arms H;
      try (exfalso; exact (some_not_None _ H)).
    split; [reflexivity|].
    apply parseImage_None_iff; assumption.
  - intros [R|[Himage Hurl]].
    + apply unrecognized_no_result; assumption.
    + apply is_str_eq in Himage.
      unfold parseBlock; rewrite (get_prop_defined _ _ Hblock), Himage.
      cbn [bind]; apply parseImage_None_iff; assumption.
Qed.

Lemma parseBlock_no_result_iff_witness :
  parseBlock image_without_file = Ok None /\
  parseBlock (VObj [("type", VStr "table")]) = Ok None.
Proof.
  split.
  - apply (parseBlock_no_result_iff image_without_file eq_refl).
    right; split; reflexivity.
  - apply (parseBlock_no_result_iff (VObj [("type", VStr "table")]) eq_refl).
    left; reflexivity.
Defined.

Ltac read_props :=
  repeat match goal with
         | Hg : get_prop _ _ = Ok _ |- _ => apply get_prop_Ok in Hg as [_ ->]
         end.

Ltac expands_arm H :=
  open_parse H; read_props; unfold expands; simpl;
  rewrite ?truthy_or_else by reflexivity; reflexivity.

(** X7: the fetcher descends into a parsed block exactly when the record's
    type is paragraph, bulleted or numbered list item, toggle or to-do and
    the record's [has_children] is truthy; for every other type the flag of
    the record is ignored. *)
Theorem parseBlock_expands (block : value) (b : ParsedBlock) :
  parseBlock block = Ok (Some b) ->
  expands b
  = existsb (is_str (opt_prop block "type")) children_capable_types
    && truthy (opt_prop block "has_children").
Proof.
  unfold parseBlock; intros H.
  apply bind_Ok in H as (type & Htype & H).
  apply get_prop_Ok in Htype as [_ ->].
  remember (opt_prop block "type") as type eqn:Ht; clear Ht.
  switch_arm H type "paragraph"; [expands_arm H|].
  switch_arm H type "heading_1"; [expands_arm H|].
  switch_arm H type "heading_2"; [expands_arm H|].
  switch_arm H type "heading_3"; [expands_arm H|].
  switch_arm H type "bulleted_list_item"; [expands_arm H|].
  switch_arm H type "numbered_list_item"; [expands_arm H|].
  switch_arm H type "quote"; [expands_arm H|].
  switch_arm H type "code"; [expands_arm H|].
  switch_arm H type "callout"; [expands_arm H|].
  switch_arm H type "divider"; [expands_arm H|].
  switch_arm H type "image".
  { apply parseImage_Some in H as (url & caption & ->); reflexivity. }
  switch_arm H type "bookmark"; [expands_arm H|].
  switch_arm H type "toggle"; [expands_arm H|].
  switch_arm H type "to_do"; [expands_arm H|].
  discriminate H.
Qed.

Lemma parseBlock_expands_witness :
  exists heading paragraph,
    parseBlock (flagged "h1" "heading_1") = Ok (Some heading) /\
    expands heading = false /\
    parseBlock (flagged "p1" "paragraph") = Ok (Some paragraph) /\
    expands paragraph = true.
Proof.
  do 2 eexists.
  split; [reflexivity|].
  split; [rewrite (parseBlock_expands (flagged "h1" "heading_1") _ eq_refl);
          reflexivity|].
  split; [reflexivity|].
  rewrite (parseBlock_expands (flagged "p1" "paragraph") _ eq_refl).
  reflexivity.
Defined.

Lemma parseRichText_not_array (v : value) :
  (forall l, v <> VArr l) -> parseRichText (v ||| VArr []) = Ok [].
Proof.
  intros Hv; unfold or_else; destruct (truthy v); [|reflexivity].
  destruct v; try reflexivity.
  exfalso; eapply Hv; reflexivity.
Qed.

(** X8: a truthy [rich_text] that is not an array makes a code record
    raise a [TypeError], while a paragraph record with the same field is
    parsed to a paragraph with empty content. *)
Theorem rich_text_not_array (block rich : value) :
  truthy rich = true ->
  (forall l, rich <> VArr l) ->
  (is_str (opt_prop block "type") "code" = true ->
   opt_prop (opt_prop block "code") "rich_text" = rich ->
   parseBlock block = Throw TypeError) /\
  (is_str (opt_prop block "type") "paragraph" = true ->
   opt_prop (opt_prop block "paragraph") "rich_text" = rich ->
   parseBlock block
   = Ok (Some (ParagraphBlock []
                 (opt_prop block "has_children" ||| VBool false)))).
Proof.
  intros Htruthy Hshape; split; intros Htype Hrich;
    destruct (typed_block_is_object block _ Htype) as [Hblock Hty];
    unfold parseBlock; rewrite Hty; cbn [bind];
    decide_goal_arms.
  - unfold some, parseCode.
    rewrite (get_prop_defined _ _ Hblock); cbn [bind].
    rewrite Hrich, (or_else_truthy _ _ Htruthy).
    destruct rich; try reflexivity.
    exfalso; eapply Hshape; reflexivity.
  - unfold some, parseParagraph.
    rewrite !(get_prop_defined _ _ Hblock); cbn [bind].
    rewrite Hrich, (parseRichText_not_array _ Hshape); reflexivity.
Qed.

Lemma rich_text_not_array_witness :
  parseBlock (VObj [("type", VStr "code");
                    ("code", VObj [("rich_text", VStr "oops")])])
    = Throw TypeError /\
  parseBlock (VObj [("type", VStr "paragraph");
                    ("paragraph", VObj [("rich_text", VStr "oops")])])
    = Ok (Some (ParagraphBlock [] (VBool false))).
Proof.
  assert (Hshape : forall l, VStr "oops" <> VArr l) by discriminate.
  split.
  - apply (rich_text_not_array
             (VObj [("type", VStr "code");
                    ("code", VObj [("rich_text", VStr "oops")])])
             (VStr "oops") eq_refl Hshape); reflexivity.
  - apply (rich_text_not_array
             (VObj [("type", VStr "paragraph");
                    ("paragraph", VObj [("rich_text", VStr "oops")])])
             (VStr "oops") eq_refl Hshape); reflexivity.
Defined.

(** ** Rendering what was parsed *)

Lemma Forall2_nth_error {A B : Type} (R : A -> B -> Prop)
    (l : list A) (l' : list B) :
  Forall2 R l l' ->
  forall i x, nth_error l i = Some x ->
  exists y, nth_error l' i = Some y /\ R x y.
Proof.
  induction 1 as [|a b l l' Hab _ IH]; intros [|i] x Hx; try discriminate.
  - injection Hx as <-; exists b; auto.
  - apply IH; exact Hx.
Qed.

Lemma parsed_nesting (rt : value) (span : ParsedRichText) :
  parseRun rt = Ok span ->
  wrappers (renderer_nesting span) = wrappers (record_nesting rt) /\
  content span = (opt_prop rt "plain_text" ||| VStr "").
Proof.
  unfold parseRun; intros H.
  repeat match goal with
         | H' : bind _ _ = Ok _ |- _ => apply bind_Ok in H' as (? & ? & ?)
         end.
  read_props.
  match goal with H' : Ok _ = Ok span |- _ => injection H' as <- end.
  split; [|reflexivity].
  unfold wrappers, renderer_nesting, record_nesting; simpl.
  rewrite !truthy_or_else by reflexivity.
  repeat match goal with
         | |- context [if truthy ?v then _ else _] => destruct (truthy v)
         end; reflexivity.
Qed.

(** X9: for a run whose [annotations] is not a string (an object, in a
    payload, or missing), parsing the run and rendering its span gives, at
    the position of the run, one [span] element keyed by that position,
    holding the run's plain text (the empty string when it has none)
    inside the wrappers selected by the truthiness of the record's own
    fields: the defaults of the normalizer add and remove no wrapper. *)
Theorem parse_then_render_run
    (runs : list value) (spans : list ParsedRichText) (i : nat) (rt : value) :
  parseRichText (VArr runs) = Ok spans ->
  nth_error runs i = Some rt ->
  (forall s, opt_prop rt "annotations" <> VStr s) ->
  exists inner,
    nth_error (fragment_children (RichTextRenderer spans)) i
      = Some (Element "span" [("key", VNum (Z.of_nat i))] [inner]) /\
    wrapper_chain inner = wrappers (record_nesting rt) /\
    innermost inner = Child (opt_prop rt "plain_text" ||| VStr "").
Proof.
  simpl; intros Hparse Hnth _.
  apply mapM_Ok_Forall2 in Hparse.
  destruct (Forall2_nth_error _ _ _ Hparse i rt Hnth) as (span & Hspan & Hrun).
  destruct (parsed_nesting rt span Hrun) as [Hwrap Hcontent].
  destruct (renderRun_chain i span) as [Hchain Hinner].
  rewrite (nth_error_mapi_from renderRun spans 0 i span Hspan); simpl.
  unfold renderRun in *.
  eexists; split; [reflexivity|].
  simpl in Hchain, Hinner.
  injection Hchain as Hchain.
  rewrite <- Hwrap, <- Hcontent; split; assumption.
Qed.

Lemma parse_then_render_run_witness :
  exists spans inner,
    parseRichText (VArr [plain_run "see the "; bold_link_run]) = Ok spans /\
    nth_error (fragment_children (RichTextRenderer spans)) 1
      = Some (Element "span" [("key", VNum 1)] [inner]) /\
    wrapper_chain inner = ["a"; "strong"] /\
    innermost inner = Child (VStr "docs").
Proof.
  eexists.
  assert (Hann : forall s, opt_prop bold_link_run "annotations" <> VStr s)
    by discriminate.
  destruct (parse_then_render_run [plain_run "see the "; bold_link_run] _ 1
              bold_link_run eq_refl eq_refl Hann)
    as (inner & Hnth & Hchain & Hin).
  exists inner; split; [reflexivity|].
  split; [exact Hnth|]; split; assumption.
Defined.

(** ** The tree walk of the renderer *)

Lemma BlockWithMetadata_nested_ind (P : BlockWithMetadata -> Prop) :
  (forall block_id b kids,
     Forall P kids -> P {| id := block_id; block := b; children := kids |}) ->
  forall node, P node.
Proof.
  intros Hnode; fix IH 1; intros [block_id b kids].
  apply Hnode.
  induction kids as [|k rest IHl]; constructor; [apply IH | exact IHl].
Qed.

Lemma renderRun_no_walk_class (name : string) (index : nat)
    (text : ParsedRichText) :
  name = "notion-block" \/ name = "notion-block-children" ->
  count_class name (renderRun index text) = 0.
Proof.
  intros Hname; unfold renderRun.
  destruct (truthy (bold _)), (truthy (italic _)), (truthy (strikethrough _)),
    (truthy (underline _)), (truthy (code _)), (truthy (link _));
    destruct Hname; subst; reflexivity.
Qed.

Lemma rich_text_no_walk_class (name : string) (spans : list ParsedRichText) :
  name = "notion-block" \/ name = "notion-block-children" ->
  forall i, list_sum (map (count_class name) (mapi_from renderRun i spans)) = 0.
Proof.
  intros Hname; induction spans as [|text rest IH]; intros i;
    cbn [mapi_from map list_sum fold_right]; [reflexivity|].
  rewrite (renderRun_no_walk_class name i text Hname).
  change (list_sum (map (count_class name) (mapi_from renderRun (S i) rest)) = 0).
  apply IH.
Qed.

Lemma caption_element_no_walk_class (name tag class : string)
    (caption : list ParsedRichText) :
  name = "notion-block" \/ name = "notion-block-children" ->
  In class ["notion-code-caption"; "notion-image-caption";
            "notion-bookmark-caption"] ->
  count_class name (caption_element tag class caption) = 0.
Proof.
  intros Hname Hclass; unfold caption_element, RichTextRenderer.
  destruct (0 <? length caption)%nat; [|reflexivity].
  cbn [count_class map list_sum fold_right].
  rewrite (rich_text_no_walk_class name caption Hname 0).
  destruct Hname; subst; simpl in Hclass;
    repeat (destruct Hclass as [<-|Hclass]; [reflexivity|]);
    contradiction.
Qed.

(** The block renderers emit no element of the classes of the tree walk. *)
Lemma BlockRenderer_no_walk_class (name : string) (b : ParsedBlock)
    (rendered : ReactNode) :
  name = "notion-block" \/ name = "notion-block-children" ->
  BlockRenderer b = Ok rendered ->
  count_class name rendered = 0.
Proof.
  intros Hname H.
  pose proof (rich_text_no_walk_class name) as Hrich.
  pose proof (caption_element_no_walk_class name) as Hcap.
  destruct b; simpl in H;
    unfold CodeBlockRenderer, CalloutBlockRenderer, template in H;
    repeat match goal with
           | H' : bind _ _ = Ok _ |- _ => apply bind_Ok in H' as (? & ? & ?)
           | H' : Ok _ = Ok _ |- _ => injection H' as <-
           end;
    unfold ParagraphBlockRenderer, HeadingBlockRenderer, ListItemBlockRenderer,
      QuoteBlockRenderer, DividerBlockRenderer, ImageBlockRenderer,
      BookmarkBlockRenderer, ToggleBlockRenderer, ToDoBlockRenderer,
      RichTextRenderer;
    cbn [count_class map list_sum fold_right];
    rewrite ?Hrich, ?Hcap by (simpl; auto);
    try destruct type; try destruct icon; try destruct (truthy checked);
    destruct Hname; subst; reflexivity.
Qed.

Lemma filter_flat_map {A B : Type} (f : B -> bool) (g : A -> list B)
    (l : list A) :
  filter f (flat_map g l) = flat_map (fun x => filter f (g x)) l.
Proof.
  induction l as [|x rest IH]; simpl; [reflexivity|].
  rewrite filter_app, IH; reflexivity.
Qed.

Lemma rendered_kids_count (count : ReactNode -> nat)
    (size : BlockWithMetadata -> nat) (kids : list BlockWithMetadata) :
  Forall (fun k => forall r, renderBlockWithMeta k = Ok r -> count r = size k)
    kids ->
  forall inner,
    mapM renderBlockWithMeta kids = Ok inner ->
    list_sum (map count inner) = list_sum (map size kids).
Proof.
  induction 1 as [|k rest Hk _ IH]; simpl; intros inner H.
  - injection H as <-; reflexivity.
  - apply bind_Ok in H as (r & Hr & H).
    apply bind_Ok in H as (rs & Hrs & H).
    injection H as <-; simpl.
    rewrite (Hk r Hr), (IH rs Hrs); reflexivity.
Qed.

Lemma length_flat_map_sum {A B : Type} (g : A -> list B) (l : list A) :
  length (flat_map g l) = list_sum (map (fun x => length (g x)) l).
Proof.
  induction l as [|x rest IH]; simpl; [reflexivity|].
  rewrite length_app, IH; reflexivity.
Qed.

Lemma node_count (block_id : value) (rendered nested : ReactNode) :
  let node := Element "div" [("key", block_id); className "notion-block"]
                [rendered; nested] in
  count_class "notion-block" node
  = S (count_class "notion-block" rendered + count_class "notion-block" nested)
  /\
  count_class "notion-block-children" node
  = count_class "notion-block-children" rendered
    + count_class "notion-block-children" nested.
Proof.
  split; simpl; lia.
Qed.

Lemma blocks_count (inner : list ReactNode) :
  let blocks := Element "div" [className "notion-blocks"] inner in
  count_class "notion-block" blocks
  = list_sum (map (count_class "notion-block") inner) /\
  count_class "notion-block-children" blocks
  = list_sum (map (count_class "notion-block-children") inner).
Proof.
  split; reflexivity.
Qed.

Lemma container_count (blocks : ReactNode) :
  let container := Element "div" [className "notion-block-children"] [blocks] in
  count_class "notion-block" container = count_class "notion-block" blocks /\
  count_class "notion-block-children" container
  = S (count_class "notion-block-children" blocks).
Proof.
  split; simpl; lia.
Qed.

Lemma renderBlockWithMeta_counts (node : BlockWithMetadata) :
  forall r,
    renderBlockWithMeta node = Ok r ->
    count_class "notion-block" r = length (nodes_of node) /\
    count_class "notion-block-children" r
    = length (filter has_children (nodes_of node)).
Proof.
  induction node as [block_id b kids IH] using BlockWithMetadata_nested_ind.
  intros r H; simpl in H.
  apply bind_Ok in H as (rendered & Hrendered & H).
  apply bind_Ok in H as (nested & Hnested & H).
  injection H as <-.
  pose proof (BlockRenderer_no_walk_class "notion-block" b rendered
                (or_introl eq_refl) Hrendered) as Hb1.
  pose proof (BlockRenderer_no_walk_class "notion-block-children" b rendered
                (or_intror eq_refl) Hrendered) as Hb2.
  destruct (node_count block_id rendered nested) as [-> ->].
  rewrite Hb1, Hb2.
  cbn [nodes_of filter length].
  change (has_children {| id := block_id; block := b; children := kids |})
    with (0 <? length kids)%nat.
  rewrite filter_flat_map, !length_flat_map_sum.
  destruct (0 <? length kids)%nat eqn:Hkids.
  - apply bind_Ok in Hnested as (inner & Hinner & Hnested).
    injection Hnested as <-.
    destruct (container_count (Element "div" [className "notion-blocks"] inner))
      as [-> ->].
    destruct (blocks_count inner) as [-> ->].
    assert (H1 : list_sum (map (count_class "notion-block") inner)
                 = list_sum (map (fun k => length (nodes_of k)) kids)).
    { apply rendered_kids_count; [|exact Hinner].
      eapply Forall_impl; [|exact IH].
      intros k Hk r Hr; apply (Hk r Hr). }
    assert (H2 : list_sum (map (count_class "notion-block-children") inner)
                 = list_sum (map (fun k => length (filter has_children
                                                     (nodes_of k))) kids)).
    { apply rendered_kids_count; [|exact Hinner].
      eapply Forall_impl; [|exact IH].
      intros k Hk r Hr; apply (Hk r Hr). }
    rewrite H1, H2; cbn [length]; rewrite ?length_flat_map_sum; split; lia.
  - injection Hnested as <-.
    destruct kids; [|discriminate Hkids].
    split; reflexivity.
Qed.

(** X10: the tree walk emits one [notion-block] element per node of the
    block tree, at whatever depth, and one [notion-block-children]
    container per node that has children; a node without children gets no
    container. *)
Theorem NotionBlocksRenderer_counts
    (blocks : list BlockWithMetadata) (tree : ReactNode) :
  NotionBlocksRenderer blocks = Ok tree ->
  count_class "notion-block" tree = length (flat_map nodes_of blocks) /\
  count_class "notion-block-children" tree
  = length (filter has_children (flat_map nodes_of blocks)).
Proof.
  unfold NotionBlocksRenderer; intros H.
  apply bind_Ok in H as (inner & Hinner & H).
  injection H as <-.
  destruct (blocks_count inner) as [-> ->].
  rewrite filter_flat_map, !length_flat_map_sum.
  assert (Hall : Forall
            (fun k => forall r, renderBlockWithMeta k = Ok r ->
               count_class "notion-block" r = length (nodes_of k) /\
               count_class "notion-block-children" r
               = length (filter has_children (nodes_of k))) blocks)
    by (apply Forall_forall; intros k _; apply renderBlockWithMeta_counts).
  split.
  - apply rendered_kids_count; [|exact Hinner].
    eapply Forall_impl; [|exact Hall].
    intros k Hk r Hr; apply (Hk r Hr).
  - apply rendered_kids_count; [|exact Hinner].
    eapply Forall_impl; [|exact Hall].
    intros k Hk r Hr; apply (Hk r Hr).
Qed.

Lemma NotionBlocksRenderer_counts_witness :
  exists tree,
    NotionBlocksRenderer sample_tree = Ok tree /\
    count_class "notion-block" tree = 3 /\
    count_class "notion-block-children" tree = 1.
Proof.
  eexists; split; [reflexivity|].
  exact (NotionBlocksRenderer_counts sample_tree _ eq_refl).
Defined.

Lemma returns_bind {A B : Type} (r : result A) (k : A -> result B) :
  returns (bind r k)
  = match r with
    | Ok a => returns (k a)
    | Throw _ => false
    end.
Proof.
  destruct r; reflexivity.
Qed.






(** ** What the fetcher does with the parsed blocks *)

Section FetcherBlocks.

Variable World : Type.
Variable list_children : value -> World -> result (list value) * World.

Lemma expand_children_keeps_blocks
    (f : value -> World -> run World (list BlockWithMetadata)) :
  forall stubs w blocks w',
    expand_children f stubs w = Some (Ok blocks, w') ->
    map id blocks = map id stubs /\ map block blocks = map block stubs.
Proof.
  induction stubs as [|b rest IH]; simpl; intros w blocks w' H.
  - injection H as <- _; auto.
  - destruct (expands (block b)).
    + destruct (f (id b) w) as [[[kids|e] w1]|]; try discriminate.
      destruct (expand_children f rest w1) as [[[rest'|e] w2]|] eqn:Hr;
        try discriminate.
      injection H as <- _; simpl.
      destruct (IH _ _ _ Hr) as [-> ->]; auto.
    + destruct (expand_children f rest w) as [[[rest'|e] w2]|] eqn:Hr;
        try discriminate.
      injection H as <- _; simpl.
      destruct (IH _ _ _ Hr) as [-> ->]; auto.
Qed.

Lemma expand_children_nothing
    (f : value -> World -> run World (list BlockWithMetadata)) :
  forall stubs w,
    forallb (fun n => negb (expands (block n))) stubs = true ->
    expand_children f stubs w = Some (Ok stubs, w).
Proof.
  induction stubs as [|b rest IH]; simpl; intros w H; [reflexivity|].
  apply andb_true_iff in H as [Hb Hrest].
  destruct (expands (block b)); [discriminate|].
  rewrite (IH w Hrest); reflexivity.
Qed.

(** X12: the nodes the fetcher returns for a block are the parsed records
    of the service's answer, one for one and in the same order, with the
    same identifiers and blocks: fetching children fills [children] and
    changes nothing else. *)
Theorem fetch_keeps_parsed_blocks
    (fuel : nat) (blockId : value) (w w' : World)
    (blocks : list BlockWithMetadata) :
  fetchBlocksRecursively list_children fuel blockId w = Some (Ok blocks, w') ->
  exists results w1 stubs,
    list_children blockId w = (Ok results, w1) /\
    parseBlocks results = Ok stubs /\
    map id blocks = map id stubs /\
    map block blocks = map block stubs.
Proof.
  destruct fuel as [|fuel]; simpl; [discriminate|].
  destruct (list_children blockId w) as [[results|e] w1]; [|discriminate].
  destruct (parseBlocks results) as [stubs|e] eqn:Hparse; [|discriminate].
  intros H; exists results, w1, stubs.
  destruct (expand_children_keeps_blocks _ _ _ _ _ H); auto.
Qed.

(** X13: when no parsed block of the answer is one the fetcher descends
    into, the fetch is a single call to the service: it returns the parsed
    stubs as they are, in the world the call left, whatever recursion
    budget above zero it is given. *)
Theorem fetch_without_expansion
    (blockId : value) (w w1 : World) (results : list value)
    (stubs : list BlockWithMetadata) (fuel : nat) :
  list_children blockId w = (Ok results, w1) ->
  parseBlocks results = Ok stubs ->
  forallb (fun n => negb (expands (block n))) stubs = true ->
  fetchBlocksRecursively list_children (S fuel) blockId w = Some (Ok stubs, w1) /\
  getPageBlocks list_children (S fuel) blockId w = Some (Ok stubs, w1).
Proof.
  intros Hcall Hparse Hleaf.
  assert (H : fetchBlocksRecursively list_children (S fuel) blockId w
              = Some (Ok stubs, w1)).
  { simpl; rewrite Hcall, Hparse.
    apply expand_children_nothing; exact Hleaf. }
  split; [exact H|].
  unfold getPageBlocks; rewrite H; reflexivity.
Qed.

(** X14: a [null] or [undefined] record in the service's answer for the
    page blanks the page: [getPageBlocks] returns the empty sequence, and
    none of the well-formed records of the answer. *)
Theorem getPageBlocks_blank_on_nullish_record
    (pageId : value) (w w1 : World) (results : list value) (x : value)
    (fuel : nat) :
  list_children pageId w = (Ok results, w1) ->
  In x results ->
  nullish x = true ->
  getPageBlocks list_children (S fuel) pageId w = Some (Ok [], w1).
Proof.
  intros Hcall Hin Hx.
  apply in_split in Hin as (before & after & ->).
  unfold getPageBlocks; simpl.
  rewrite Hcall, (parseBlocks_nullish_record before after x Hx).
  reflexivity.
Qed.

End FetcherBlocks.

Lemma fetch_keeps_parsed_blocks_witness :
  exists blocks stubs,
    fetchBlocksRecursively sample_service 3 (VStr "page") tt
      = Some (Ok blocks, tt) /\
    parseBlocks [flagged "h1" "heading_1"; flagged "p1" "paragraph"] = Ok stubs /\
    map id blocks = map id stubs /\ map block blocks = map block stubs.
Proof.
  destruct (fetchBlocksRecursively sample_service 3 (VStr "page") tt)
    as [[[blocks|e] []]|] eqn:Hrun;
    try (vm_compute in Hrun; discriminate Hrun).
  destruct (fetch_keeps_parsed_blocks _ sample_service 3 (VStr "page") tt tt
              blocks Hrun) as (results & w1 & stubs & Hcall & Hparse & Hids).
  exists blocks, stubs; split; [reflexivity|].
  injection Hcall as <- _.
  split; [exact Hparse | exact Hids].
Defined.

Lemma fetch_without_expansion_witness :
  exists quote,
    fetchBlocksRecursively sample_service 1 (VStr "p1") tt
      = Some (Ok [quote], tt) /\
    id quote = VStr "q1" /\ children quote = [].
Proof.
  destruct (parseBlocks [flagged "q1" "quote"]) as [[|quote [|]]|] eqn:Hparse;
    try (vm_compute in Hparse; discriminate Hparse).
  exists quote.
  destruct (fetch_without_expansion _ sample_service (VStr "p1") tt tt
              [flagged "q1" "quote"] [quote] 0 eq_refl Hparse) as [Hrun _].
  - vm_compute in Hparse; injection Hparse as <-; reflexivity.
  - split; [exact Hrun|].
    vm_compute in Hparse; injection Hparse as <-; split; reflexivity.
Defined.

Lemma getPageBlocks_blank_on_nullish_record_witness :
  getPageBlocks service_with_null 1 (VStr "page") tt = Some (Ok [], tt).
Proof.
  apply (getPageBlocks_blank_on_nullish_record _ service_with_null
           (VStr "page") tt tt _ VNull 0 eq_refl).
  - right; left; reflexivity.
  - reflexivity.
Defined.

(** ** Post metadata: what makes the constructor raise *)

Lemma getCategories_returns (prop : value) :
  returns (NotionParser.getCategories prop) = categories_ok prop.
Proof.
  unfold NotionParser.getCategories, categories_ok.
  destruct (opt_prop prop "multi_select") as [| | | | |items|]; try reflexivity.
  cbn [nullish]; rewrite returns_bind.
  assert (H : returns (mapM (fun item => get_prop item "name") items)
              = forallb (fun item => negb (nullish item)) items).
  { rewrite mapM_returns.
    induction items as [|item rest IH]; simpl; [reflexivity|].
    rewrite IH; destruct item; reflexivity. }
  rewrite <- H; destruct (mapM _ items); reflexivity.
Qed.

Lemma getCover_returns (page : value) :
  nullish page = false ->
  returns (NotionParser.getCover page) = cover_ok (opt_prop page "cover").
Proof.
  intros Hpage; unfold NotionParser.getCover, cover_ok, cover_subobject_missing.
  rewrite (get_prop_defined _ _ Hpage); cbn [bind].
  destruct (truthy (opt_prop page "cover")) eqn:Hcover; [|reflexivity].
  cbn [negb orb].
  rewrite (get_prop_defined _ _ (truthy_not_nullish _ Hcover)); cbn [bind].
  destruct (is_str _ "file");
    rewrite (get_prop_defined _ _ (truthy_not_nullish _ Hcover)); cbn [bind];
    match goal with |- context [get_prop ?v "url"] => destruct v end;
    reflexivity.
Qed.

Lemma new_NotionPost_returns_eq (page : value) :
  returns (NotionParser.new page) = constructible page.
Proof.
  unfold constructible, NotionParser.new.
  destruct (nullish page) eqn:Hpage.
  { rewrite (get_prop_nullish _ _ Hpage); reflexivity. }
  rewrite !(get_prop_defined _ _ Hpage); cbn [bind negb andb].
  destruct (nullish (opt_prop page "properties")) eqn:Hprops.
  { rewrite (get_prop_nullish _ _ Hprops); reflexivity. }
  rewrite !(get_prop_defined _ _ Hprops); cbn [bind negb andb].
  rewrite returns_bind, <- getCategories_returns.
  destruct (NotionParser.getCategories _) as [cats|e]; [|reflexivity].
  cbn [returns andb].
  rewrite returns_bind, <- (getCover_returns page Hpage).
  destruct (NotionParser.getCover page); reflexivity.
Qed.

Lemma only_TypeError_new (page : value) : only_TypeError (NotionParser.new page).
Proof.
  unfold NotionParser.new, NotionParser.getCategories, NotionParser.getCover.
  type_errors.
Qed.

(** X15: [new NotionPost(page)] returns a post exactly when the page is not
    [null] or [undefined], it has [properties], its [multi_select] is
    missing or an array without a [null] option, and its cover is falsy
    or carries the sub-object of its type; in every other case it raises a
    [TypeError]. *)
Theorem new_NotionPost_returns (page : value) :
  if constructible page
  then exists post, NotionParser.new page = Ok post
  else NotionParser.new page = Throw TypeError.
Proof.
  pose proof (new_NotionPost_returns_eq page) as Hreturns.
  pose proof (only_TypeError_new page) as Herror.
  destruct (NotionParser.new page) as [post|e]; simpl in *;
    rewrite <- Hreturns; [eauto | subst; reflexivity].
Qed.

Lemma new_NotionPost_fields (page : value) (post : NotionParser.NotionPost) :
  NotionParser.new page = Ok post ->
  let props := opt_prop page "properties" in
  NotionParser.id post = opt_prop page "id" /\
  NotionParser.title post = NotionParser.getTitle (opt_prop props "title") /\
  NotionParser.status post = NotionParser.getStatus (opt_prop props "status") /\
  NotionParser.createdDate post
  = NotionParser.getDate (opt_prop props "created_date") /\
  NotionParser.series post = NotionParser.getSeries (opt_prop props "series") /\
  NotionParser.getCategories (opt_prop props "categories")
  = Ok (NotionParser.categories post) /\
  NotionParser.getCover page = Ok (NotionParser.thumbnail post).
Proof.
  unfold NotionParser.new; intros H.
  repeat match goal with
         | H' : bind _ _ = Ok _ |- _ => apply bind_Ok in H' as (? & ? & ?)
         end.
  match goal with H' : Ok _ = Ok post |- _ => injection H' as <- end.
  repeat match goal with
         | Hg : get_prop _ _ = Ok _ |- _ => apply get_prop_Ok in Hg as [_ ->]
         end.
  simpl; repeat split; assumption.
Qed.




(** X17: the title of a post is the plain text of the first run of the
    title property alone: the runs after the first are dropped. *)
Theorem new_NotionPost_title_first_run
    (page : value) (post : NotionParser.NotionPost)
    (first : value) (others : list value) :
  NotionParser.new page = Ok post ->
  opt_prop (opt_prop (opt_prop page "properties") "title") "title"
  = VArr (first :: others) ->
  NotionParser.title post = coalesce (opt_prop first "plain_text") (VStr "").
Proof.
  intros H Htitle.
  destruct (new_NotionPost_fields page post H) as (_ & -> & _).
  unfold NotionParser.getTitle; rewrite Htitle; reflexivity.
Qed.

Lemma new_NotionPost_title_first_run_witness :
  exists post,
    NotionParser.new sample_page = Ok post /\
    NotionParser.title post = VStr "Hello, ".
Proof.
  eexists; split; [reflexivity|].
  apply (new_NotionPost_title_first_run sample_page _
           (plain_run "Hello, ") [plain_run "world"] eq_refl eq_refl).
Defined.

Lemma mapM_get_prop_names (k : string) (items names : list value) :
  mapM (fun item => get_prop item k) items = Ok names ->
  names = map (fun item => opt_prop item k) items.
Proof.
  revert names; induction items as [|x rest IH]; simpl; intros names H.
  - injection H as <-; reflexivity.
  - apply bind_Ok in H as (v & Hv & H).
    apply bind_Ok in H as (vs & Hvs & H).
    injection H as <-.
    apply get_prop_Ok in Hv as [_ ->].
    rewrite (IH vs Hvs); reflexivity.
Qed.

(** X18: the categories of a post are the names of the options of the
    [multi_select] property, one per option and in the order of the
    payload. *)
Theorem new_NotionPost_categories
    (page : value) (post : NotionParser.NotionPost) (options : list value) :
  NotionParser.new page = Ok post ->
  opt_prop (opt_prop (opt_prop page "properties") "categories") "multi_select"
  = VArr options ->
  NotionParser.categories post
  = VArr (map (fun option => opt_prop option "name") options).
Proof.
  intros H Hoptions.
  destruct (new_NotionPost_fields page post H) as (_ & _ & _ & _ & _ & Hcats & _).
  unfold NotionParser.getCategories in Hcats.
  rewrite Hoptions in Hcats; simpl in Hcats.
  apply bind_Ok in Hcats as (names & Hnames & Hcats).
  injection Hcats as <-.
  rewrite (mapM_get_prop_names _ _ _ Hnames); reflexivity.
Qed.

Lemma new_NotionPost_categories_witness :
  exists post,
    NotionParser.new sample_page = Ok post /\
    NotionParser.categories post = VArr [VStr "TypeScript"; VStr "Next.js"].
Proof.
  eexists; split; [reflexivity|].
  apply (new_NotionPost_categories sample_page _
           [VObj [("name", VStr "TypeScript")]; VObj [("name", VStr "Next.js")]]
           eq_refl eq_refl).
Defined.

(** ** Batches of posts *)

Lemma fromPages_posts (pages : list value) :
  forall posts,
    fromPages pages = Ok posts ->
    length posts = length pages /\
    map NotionParser.id posts = map (fun page => opt_prop page "id") pages.
Proof.
  unfold fromPages; induction pages as [|page rest IH]; simpl; intros posts H.
  - injection H as <-; auto.
  - apply bind_Ok in H as (post & Hpost & H).
    apply bind_Ok in H as (others & Hothers & H).
    injection H as <-; simpl.
    destruct (IH others Hothers) as [-> ->].
    destruct (new_NotionPost_fields page post Hpost) as [-> _]; auto.
Qed.

Lemma fromPages_returns (pages : list value) :
  returns (fromPages pages) = forallb constructible pages.
Proof.
  unfold fromPages; rewrite mapM_returns.
  induction pages as [|page rest IH]; simpl; [reflexivity|].
  rewrite new_NotionPost_returns_eq, IH; reflexivity.
Qed.

(** X19: converting a batch of pages is all or nothing: [fromPages]
    returns exactly when every page can be constructed, and then gives one
    post per page, in the order of the pages, each with the identifier of
    its page; one page that cannot be constructed makes it raise. *)
Theorem fromPages_all_or_nothing (pages : list value) :
  returns (fromPages pages) = forallb constructible pages /\
  (forall posts,
     fromPages pages = Ok posts ->
     length posts = length pages /\
     map NotionParser.id posts = map (fun page => opt_prop page "id") pages).
Proof.
  split; [apply fromPages_returns | apply fromPages_posts].
Qed.

Lemma fromPages_raises (pages : list value) :
  forallb constructible pages = false -> fromPages pages = Throw TypeError.
Proof.
  intros H; rewrite <- fromPages_returns in H.
  pose proof (only_TypeError_mapM NotionParser.new pages only_TypeError_new) as He.
  unfold fromPages in *.
  destruct (mapM NotionParser.new pages) as [posts|e]; simpl in *;
    [discriminate | subst; reflexivity].
Qed.

Section PostsProperties.

Variable World : Type.
Variable retrieve_page : value -> World -> result value * World.
Variable query_posts : value -> value -> World -> result (list value) * World.

(** X20: [getPostById] never raises.  Without an API key it answers
    [null] without calling the service; and it answers with a post only
    when the key is set, the service returned a page and the post could be
    constructed from it. *)
Theorem getPostById_never_raises (NOTION_API_KEY pageId : value) (w : World) :
  exists answer w',
    getPostById retrieve_page NOTION_API_KEY pageId w = (Ok answer, w') /\
    (truthy NOTION_API_KEY = false -> answer = None /\ w' = w) /\
    (forall post,
       answer = Some post ->
       truthy NOTION_API_KEY = true /\
       exists page,
         retrieve_page pageId w = (Ok page, w') /\
         NotionParser.new page = Ok post).
Proof.
  unfold getPostById.
  destruct (truthy NOTION_API_KEY); cbn [negb].
  - destruct (retrieve_page pageId w) as [[page|e] w1].
    + destruct (NotionParser.new page) as [post|e] eqn:Hnew.
      * exists (Some post), w1; split; [reflexivity|]; split;
          [intros H; discriminate H|].
        intros post' Hpost; injection Hpost as <-; eauto.
      * exists None, w1; split; [reflexivity|]; split;
          [intros H; discriminate H | intros post H; discriminate H].
    + exists None, w1; split; [reflexivity|]; split;
        [intros H; discriminate H | intros post H; discriminate H].
  - exists None, w; split; [reflexivity|]; split;
      [auto | intros post H; discriminate H].
Qed.

(** X21: with the key set and a page retrieved, [getPostById] answers
    [null] when the post cannot be constructed, for instance when the
    cover of the page lacks the sub-object of its type, and otherwise the
    post, which carries the identifier of the page. *)
Theorem getPostById_page
    (NOTION_API_KEY pageId : value) (w w1 : World) (page : value) :
  truthy NOTION_API_KEY = true ->
  retrieve_page pageId w = (Ok page, w1) ->
  (constructible page = false ->
   getPostById retrieve_page NOTION_API_KEY pageId w = (Ok None, w1)) /\
  (constructible page = true ->
   exists post,
     getPostById retrieve_page NOTION_API_KEY pageId w = (Ok (Some post), w1) /\
     NotionParser.id post = opt_prop page "id").
Proof.
  intros Hkey Hpage; unfold getPostById; rewrite Hkey, Hpage; cbn [negb].
  rewrite <- new_NotionPost_returns_eq.
  destruct (NotionParser.new page) as [post|e] eqn:Hnew; simpl;
    split; intros Hc; try discriminate; [|reflexivity].
  exists post; split; [reflexivity|].
  apply (new_NotionPost_fields page post Hnew).
Qed.

(** X22: [getLatestPosts] of post/route.ts hands every failure on: a
    failure of the query is raised as it is, and a page of the answer that
    cannot be constructed makes it raise a [TypeError] instead of
    returning the other posts; when every page can be constructed it
    returns one post per page. *)
Theorem getLatestPosts_propagates
    (DATABASE_ID limit : value) (w w1 : World)
    (answer : result (list value)) :
  query_posts DATABASE_ID (default_limit limit) w = (answer, w1) ->
  match answer with
  | Throw e => getLatestPosts query_posts DATABASE_ID limit w = (Throw e, w1)
  | Ok results =>
      if forallb constructible results
      then exists posts,
             getLatestPosts query_posts DATABASE_ID limit w = (Ok posts, w1) /\
             length posts = length results
      else getLatestPosts query_posts DATABASE_ID limit w = (Throw TypeError, w1)
  end.
Proof.
  intros Hquery; unfold getLatestPosts; rewrite Hquery.
  destruct answer as [results|e]; [|reflexivity].
  destruct (forallb constructible results) eqn:Hall.
  - rewrite <- fromPages_returns in Hall.
    destruct (fromPages results) as [posts|e] eqn:Hposts; [|discriminate].
    exists posts; split; [reflexivity|].
    apply (fromPages_posts results posts Hposts).
  - rewrite (fromPages_raises results Hall); reflexivity.
Qed.

(** X23: the guarded [getLatestPosts] never raises.  When either
    environment variable is missing it returns the empty list without
    querying; and whenever it returns posts, the query succeeded, every
    page of the answer could be constructed and there is one post per
    page: a single page that cannot be constructed empties the list. *)
Theorem getLatestPosts_guarded_never_raises
    (DATABASE_ID NOTION_API_KEY limit : value) (w : World) :
  exists posts w',
    getLatestPosts_guarded query_posts DATABASE_ID NOTION_API_KEY limit w
    = (Ok posts, w') /\
    (truthy DATABASE_ID = false \/ truthy NOTION_API_KEY = false ->
     posts = [] /\ w' = w) /\
    (posts <> [] ->
     exists results,
       query_posts DATABASE_ID (default_limit limit) w = (Ok results, w') /\
       forallb constructible results = true /\
       length posts = length results).
Proof.
  unfold getLatestPosts_guarded.
  destruct (truthy DATABASE_ID) eqn:Hdb, (truthy NOTION_API_KEY) eqn:Hkey;
    cbn [negb orb].
  2-4: exists [], w; split; [reflexivity|]; split;
       [intros _; auto | intros Hne; contradiction Hne; reflexivity].
  destruct (query_posts DATABASE_ID (default_limit limit) w)
    as [[results|e] w1].
  - destruct (fromPages results) as [posts|e] eqn:Hposts.
    + exists posts, w1; split; [reflexivity|]; split.
      * intros [?|?]; discriminate.
      * intros _; exists results; split; [reflexivity|]; split.
        -- rewrite <- fromPages_returns, Hposts; reflexivity.
        -- apply (fromPages_posts results posts Hposts).
    + exists [], w1; split; [reflexivity|]; split.
      * intros [?|?]; discriminate.
      * intros Hne; contradiction Hne; reflexivity.
  - exists [], w1; split; [reflexivity|]; split.
    + intros [?|?]; discriminate.
    + intros Hne; contradiction Hne; reflexivity.
Qed.

End PostsProperties.

Lemma getPostById_page_witness :
  getPostById page_service (VStr "secret") (VStr "page-1") 0 = (Ok None, 1) /\
  exists post,
    getPostById page_service (VStr "secret") (VStr "page-2") 0
      = (Ok (Some post), 1) /\
    NotionParser.id post = VStr "page-2".
Proof.
  split.
  - apply (getPostById_page _ page_service (VStr "secret") (VStr "page-1") 0 1
             page_with_broken_cover eq_refl eq_refl).
    reflexivity.
  - apply (getPostById_page _ page_service (VStr "secret") (VStr "page-2") 0 1
             sample_page eq_refl eq_refl).
    reflexivity.
Defined.

Lemma getLatestPosts_propagates_witness :
  getLatestPosts query_service (VStr "db") VUndefined 0 = (Throw TypeError, 1) /\
  exists posts,
    getLatestPosts sound_query_service (VStr "db") VUndefined 0 = (Ok posts, 1) /\
    length posts = 2.
Proof.
  split.
  - exact (getLatestPosts_propagates _ query_service (VStr "db") VUndefined 0 1
             (Ok [sample_page; page_with_broken_cover]) eq_refl).
  - exact (getLatestPosts_propagates _ sound_query_service (VStr "db")
             VUndefined 0 1 (Ok [sample_page; sample_page]) eq_refl).
Defined.

(** ** The icon of a callout *)

(** X24: the icon of a callout is rendered as a glyph only: the emoji for
    an emoji icon and a pin for every other icon, whose URL the parser
    extracted is never shown; a callout without icon has no icon element. *)
Theorem callout_icon_is_a_glyph
    (block : value) (b : ParsedBlock) (tree : ReactNode) :
  is_str (opt_prop block "type") "callout" = true ->
  parseBlock block = Ok (Some b) ->
  BlockRenderer b = Ok tree ->
  exists class content,
    tree = Element "div" [className class] [callout_glyph block; content].
Proof.
  intros Htype Hparse Hrender.
  destruct (typed_block_is_object block _ Htype) as [Hblock Hty].
  unfold parseBlock in Hparse; rewrite Hty in Hparse; cbn [bind] in Hparse.
  decide_arms Hparse.
  unfold some, parseCallout in Hparse.
  rewrite (get_prop_defined _ _ Hblock) in Hparse; cbn [bind] in Hparse.
  apply bind_Ok in Hparse as (parsed & Hparsed & Hparse).
  injection Hparse as <-.
  apply bind_Ok in Hparsed as (icon & Hicon & Hparsed).
  apply bind_Ok in Hparsed as (content & _ & Hparsed).
  injection Hparsed as <-.
  simpl in Hrender; unfold CalloutBlockRenderer in Hrender.
  apply bind_Ok in Hrender as (class & _ & Hrender).
  injection Hrender as <-.
  exists class; eexists; f_equal; f_equal.
  unfold callout_glyph.
  destruct (truthy (opt_prop (opt_prop block "callout") "icon")) eqn:Ht.
  - assert (Hdata : nullish (opt_prop block "callout") = false)
      by (destruct (opt_prop block "callout"); simpl in *;
          try discriminate; reflexivity).
    rewrite (get_prop_defined _ _ Hdata) in Hicon; cbn [bind] in Hicon.
    rewrite !(get_prop_defined _ _ (truthy_not_nullish _ Ht)) in Hicon.
    cbn [bind] in Hicon.
    match type of Hicon with
    | context [if ?c then _ else _] => destruct c
    end; cbn [bind] in Hicon; injection Hicon as <-; reflexivity.
  - injection Hicon as <-; reflexivity.
Qed.

Lemma callout_icon_is_a_glyph_witness :
  exists b tree class content,
    parseBlock callout_with_image_icon = Ok (Some b) /\
    BlockRenderer b = Ok tree /\
    tree = Element "div" [className class]
             [Element "span" [className "notion-callout-icon"]
                [Child (VStr "📌")];
              content].
Proof.
  do 2 eexists.
  destruct (callout_icon_is_a_glyph callout_with_image_icon _ _
              eq_refl eq_refl eq_refl) as (class & content & Htree).
  exists class, content.
  split; [reflexivity|]; split; [reflexivity|].
  exact Htree.
Defined.

(** ** The calls the fetcher makes *)

Section FetcherCalls.

Variable World : Type.
Variable list_children : value -> World -> result (list value) * World.

Lemma expanded_nodes_cons (b : BlockWithMetadata) (rest : list BlockWithMetadata) :
  length (expanded_nodes (b :: rest))
  = (if expands (block b) then 1 else 0)
    + length (expanded_nodes (children b)) + length (expanded_nodes rest).
Proof.
  unfold expanded_nodes; destruct b as [block_id b kids].
  cbn [flat_map nodes_of children block app filter].
  destruct (expands b); cbn [length]; rewrite filter_app, length_app; lia.
Qed.

Lemma expand_children_calls
    (f : value -> World * nat -> run (World * nat) (list BlockWithMetadata)) :
  (forall blockId w n kids w' n',
     f blockId (w, n) = Some (Ok kids, (w', n')) ->
     n' = n + 1 + length (expanded_nodes kids)) ->
  forall stubs w n blocks w' n',
    Forall (fun b => children b = []) stubs ->
    expand_children f stubs (w, n) = Some (Ok blocks, (w', n')) ->
    n' = n + length (expanded_nodes blocks).
Proof.
  intros Hf; induction stubs as [|b rest IH]; simpl;
    intros w n blocks w' n' Hstubs H.
  - injection H as <- _ <-; unfold expanded_nodes; simpl; lia.
  - apply Forall_cons_iff in Hstubs as [Hb Hrest].
    destruct (expands (block b)) eqn:Hexp.
    + destruct (f (id b) (w, n)) as [[[kids|e] [w1 n1]]|] eqn:Hkids;
        try discriminate.
      destruct (expand_children f rest (w1, n1)) as [[[rest'|e] [w2 n2]]|]
        eqn:Hr; try discriminate.
      injection H as <- _ <-.
      rewrite expanded_nodes_cons; simpl; rewrite Hexp.
      rewrite (IH _ _ _ _ _ Hrest Hr), (Hf _ _ _ _ _ _ Hkids); lia.
    + destruct (expand_children f rest (w, n)) as [[[rest'|e] [w2 n2]]|]
        eqn:Hr; try discriminate.
      injection H as <- _ <-.
      rewrite expanded_nodes_cons, Hexp, Hb.
      rewrite (IH _ _ _ _ _ Hrest Hr); unfold expanded_nodes; simpl; lia.
Qed.

(** X25: a fetch that returns has called the service once for the block
    it was asked for and once more for every node, at any depth, that it
    descended into: one call per expanded node plus one, and none for a
    node it treats as a leaf. *)
Theorem fetch_call_count
    (fuel : nat) (blockId : value) (w w' : World) (n n' : nat)
    (blocks : list BlockWithMetadata) :
  fetchBlocksRecursively (counting list_children) fuel blockId (w, n)
  = Some (Ok blocks, (w', n')) ->
  n' = n + 1 + length (expanded_nodes blocks).
Proof.
  revert blockId w n blocks w' n'.
  induction fuel as [|fuel IH]; simpl; intros blockId w n blocks w' n' H;
    [discriminate|].
  unfold counting at 1 in H; simpl in H.
  destruct (list_children blockId w) as [[results|e] w1]; [|discriminate].
  destruct (parseBlocks results) as [stubs|e] eqn:Hparse; [|discriminate].
  rewrite (expand_children_calls _ IH stubs w1 (S n) blocks w' n'
             (parseBlocks_childless _ _ Hparse) H).
  lia.
Qed.

End FetcherCalls.

Lemma fetch_call_count_witness :
  exists blocks,
    fetchBlocksRecursively (counting sample_service) 3 (VStr "page") (tt, 0)
      = Some (Ok blocks, (tt, 2)) /\
    length (flat_map nodes_of blocks) = 3 /\
    length (expanded_nodes blocks) = 1.
Proof.
  destruct (fetchBlocksRecursively (counting sample_service) 3 (VStr "page")
              (tt, 0)) as [[[blocks|e] [[] calls]]|] eqn:Hrun;
    try (vm_compute in Hrun; discriminate Hrun).
  pose proof (fetch_call_count _ sample_service 3 (VStr "page") tt tt 0 calls
                blocks Hrun) as Hcalls.
  vm_compute in Hrun.
  injection Hrun as <- <-.
  eexists; split; [reflexivity|].
  split; [reflexivity|].
  lia.
Defined.
